(** * ROW: one line of the console text buffer (src/buffer/out/Row.cpp)

    A shallow embedding of [ROW], the class that owns one glyph storage
    ([CharRow]) and one attribute storage ([ATTR_ROW]) and keeps them at the
    same width.  [Row.cpp] is translated function by function.  The two
    storages, the attribute iterator and the WIL error macros are declared in
    headers that are not part of the translated file: they enter as
    interfaces ([CharRowOps], [AttrRowOps], [ErrorMacros]) whose contracts
    ([CharRowContract], [AttrRowContract], [ErrorMacrosContract]) are taken
    from the interface description of the row specification.  A concrete
    implementation of both storages ([Module Model]) shows that the contracts
    can be met and serves to run the row on concrete inputs.

    [ROW::GetText] and [ROW::GetUnicodeStorage] only forward to the glyph
    storage and to the owning buffer; nothing below depends on them. *)

From Stdlib Require Import ZArith NArith List Lia Bool.
Import ListNotations.

(* ------------------------------------------------------------------ *)
(** ** Machine integers *)

(** [size_t] on the 64-bit target: an [N] below [2^64]. *)
Definition size_t_modulus : N := 2 ^ 64.

Definition in_size_t (n : N) : Prop := (n < size_t_modulus)%N.

(** Unsigned addition and subtraction wrap modulo [2^64]. *)
Definition size_t_add (a b : N) : N := ((a + b) mod size_t_modulus)%N.

Definition size_t_sub (a b : N) : N :=
  Z.to_N ((Z.of_N a - Z.of_N b) mod Z.of_N size_t_modulus).

(** [ptrdiff_t]: the conversion of a [size_t] to the signed difference type
    that [std::next] takes reinterprets values from [2^63] on as negative. *)
Definition PTRDIFF_MAX : N := 2 ^ 63 - 1.

Definition ptrdiff_of_size_t (n : N) : Z :=
  let z := (Z.of_N n mod Z.of_N size_t_modulus)%Z in
  if (z <=? Z.of_N PTRDIFF_MAX)%Z then z else (z - Z.of_N size_t_modulus)%Z.

(** [SHORT] is a signed 16-bit integer, [UINT] an unsigned 32-bit one. *)
Definition SHORT := Z.

(** [HRESULT]: a signed 32-bit status; negative values are failures. *)
Definition HRESULT := Z.

Definition S_OK : HRESULT := 0%Z.
Definition E_INVALIDARG : HRESULT := (0x80070057 - 2 ^ 32)%Z.
Definition E_OUTOFMEMORY : HRESULT := (0x8007000E - 2 ^ 32)%Z.

Definition FAILED (hr : HRESULT) : bool := (hr <? 0)%Z.
Definition SUCCEEDED (hr : HRESULT) : bool := (0 <=? hr)%Z.

(* ------------------------------------------------------------------ *)
(** ** Exceptions and results *)

(** The C++ exceptions that travel through [Row.cpp]. *)
Inductive exn : Type :=
| ResultException (hr : HRESULT)   (* THROW_HR_IF *)
| narrowing_error                  (* gsl::narrow *)
| bad_alloc                        (* std::bad_alloc *)
| out_of_range.                    (* std::vector::at *)

(** The result of evaluating an expression: a value, an exception in flight,
    or undefined behaviour (a read outside the storage). *)
Inductive outcome (A : Type) : Type :=
| Ok (a : A)
| Throw (e : exn)
| Undefined.

Arguments Ok {A} a.
Arguments Throw {A} e.
Arguments Undefined {A}.

Definition bind {A B : Type} (m : outcome A) (k : A -> outcome B) : outcome B :=
  match m with
  | Ok a => k a
  | Throw e => Throw e
  | Undefined => Undefined
  end.

Notation "x <- m ;; k" := (bind m (fun x => k))
  (at level 61, m at next level, right associativity).

Definition is_Ok {A : Type} (m : outcome A) : Prop := exists a, m = Ok a.
Definition is_Throw {A : Type} (m : outcome A) : Prop := exists e, m = Throw e.

(** A mutating member function returns the exception it left by, if any,
    next to the object as it is afterwards. *)
Definition raised := option exn.

(** [gsl::narrow<size_t>(short)] and [gsl::narrow<UINT>(short)]: a negative
    value does not survive the round trip and throws. *)
Definition narrow_size_t (v : SHORT) : outcome N :=
  if (v <? 0)%Z then Throw narrowing_error else Ok (Z.to_N v).

Definition narrow_UINT (v : SHORT) : outcome N :=
  if (v <? 0)%Z then Throw narrowing_error else Ok (Z.to_N v).

(* ------------------------------------------------------------------ *)
(** ** Cell data *)

(** Modelled from the spec: [TextAttribute] is declared outside Row.cpp; the
    row only stores and copies it (a colour/style value). *)
Definition TextAttribute := N.

(** Modelled from the spec: the glyph of a column, one or more code units. *)
Definition Glyph := list N.

(** Modelled from the spec: the width classification of a column. *)
Inductive DbcsAttribute : Type :=
| Single
| Leading
| Trailing
| NoGlyph.

(** Modelled from the spec: [OutputCell], the snapshot of one column built by
    the three-argument constructor that [AsCells] and [at] both call. *)
Record OutputCell : Type := mkOutputCell {
  oc_glyph : Glyph;
  oc_dbcs : DbcsAttribute;
  oc_attr : TextAttribute
}.

(** The non-owning pointer to the text buffer, as an address. *)
Definition TextBufferPtr := N.

(* ------------------------------------------------------------------ *)
(** ** The collaborators' interfaces *)

(** Modelled from the spec: the member functions of [CharRow] that Row.cpp
    calls.  [G] is the state of the glyph storage, including whatever decides
    whether an allocation succeeds. *)
Class CharRowOps (G : Type) : Type := {
  cr_new : N -> outcome G;                       (* CharRow(rowWidth, this) *)
  cr_size : G -> N;                              (* size() *)
  cr_Reset : G -> G;                             (* Reset() *)
  cr_Resize : N -> G -> HRESULT * G;             (* Resize(newSize) *)
  cr_ClearCell : N -> G -> raised * G;           (* ClearCell(column) *)
  cr_GlyphAt : G -> N -> outcome Glyph;          (* GlyphAt(column) *)
  cr_DbcsAttrAt : G -> N -> outcome DbcsAttribute; (* DbcsAttrAt(column) *)
  blank_glyph : Glyph                            (* the empty default *)
}.

(** Modelled from the spec: the member functions of [ATTR_ROW] and of its
    iterator that Row.cpp calls.  [A] is the state of the attribute storage,
    [I] the iterator.  [it_advance] is [std::next]/[operator+=] with its
    signed distance, [it_incr] is [operator++], [it_deref] is [operator*]. *)
Class AttrRowOps (A I : Type) : Type := {
  ar_new : N -> TextAttribute -> outcome A;      (* ATTR_ROW(width, attr) *)
  ar_size : A -> N;                              (* the width it covers *)
  ar_Reset : TextAttribute -> A -> raised * A;   (* Reset(attr) *)
  ar_Resize : N -> A -> raised * A;              (* Resize(newWidth) *)
  ar_GetAttrByColumn : A -> N -> outcome TextAttribute;
  ar_begin : A -> I;                             (* begin() *)
  it_advance : I -> Z -> I;
  it_incr : I -> I;
  it_deref : I -> outcome TextAttribute
}.

(** The WIL macros are defined outside Row.cpp.  [CATCH_RETURN] turns the
    exception it catches into the [HRESULT] the function returns. *)
Class ErrorMacros : Type := {
  ResultFromCaughtException : exn -> HRESULT
}.

(* ------------------------------------------------------------------ *)
(** ** ROW *)

Section RowDefinitions.

Context {G A I : Type} {crops : CharRowOps G} {arops : AttrRowOps A I}
        {wil : ErrorMacros}.

(** The data members of [ROW]. *)
Record ROW : Type := mkROW {
  _id : SHORT;
  _rowWidth : N;
  _charRow : G;
  _attrRow : A;
  _pParent : TextBufferPtr
}.

Definition set_id (id : SHORT) (r : ROW) : ROW :=
  mkROW id (_rowWidth r) (_charRow r) (_attrRow r) (_pParent r).

Definition set_rowWidth (w : N) (r : ROW) : ROW :=
  mkROW (_id r) w (_charRow r) (_attrRow r) (_pParent r).

Definition set_charRow (g : G) (r : ROW) : ROW :=
  mkROW (_id r) (_rowWidth r) g (_attrRow r) (_pParent r).

Definition set_attrRow (a : A) (r : ROW) : ROW :=
  mkROW (_id r) (_rowWidth r) (_charRow r) a (_pParent r).

(** [ROW::ROW(rowId, rowWidth, fillAttribute, pParent)].  Each initialiser
    narrows [rowWidth] again; the glyph storage is built before the attribute
    storage.  An exception leaves no object behind. *)
Definition ROW_new (rowId : SHORT) (rowWidth : SHORT)
    (fillAttribute : TextAttribute) (pParent : TextBufferPtr) : outcome ROW :=
  w <- narrow_size_t rowWidth ;;
  cw <- narrow_size_t rowWidth ;;
  g <- cr_new cw ;;
  aw <- narrow_UINT rowWidth ;;
  a <- ar_new aw fillAttribute ;;
  Ok (mkROW rowId w g a pParent).

(** [ROW::size] *)
Definition size (r : ROW) : N := _rowWidth r.

(** [ROW::GetCharRow], [ROW::GetAttrRow] *)
Definition GetCharRow (r : ROW) : G := _charRow r.
Definition GetAttrRow (r : ROW) : A := _attrRow r.

(** [ROW::GetId], [ROW::SetId] *)
Definition GetId (r : ROW) : SHORT := _id r.
Definition SetId (id : SHORT) (r : ROW) : ROW := set_id id r.

(** [ROW::Reset(Attr)]: the glyph storage is reset outside the [try]; any
    exception of the attribute reset is caught and reported as [false]. *)
Definition Reset (Attr : TextAttribute) (r : ROW) : bool * ROW :=
  let r1 := set_charRow (cr_Reset (_charRow r)) r in
  let (res, a) := ar_Reset Attr (_attrRow r1) in
  let r2 := set_attrRow a r1 in
  match res with
  | Some _ => (false, r2)
  | None => (true, r2)
  end.

(** [ROW::Resize(width)]: [RETURN_IF_FAILED] on the glyph resize, then the
    attribute resize under [CATCH_RETURN], then the assignment of
    [_rowWidth]. *)
Definition Resize (width : N) (r : ROW) : HRESULT * ROW :=
  let (hr, g) := cr_Resize width (_charRow r) in
  let r1 := set_charRow g r in
  if FAILED hr then (hr, r1)
  else
    let (res, a) := ar_Resize width (_attrRow r1) in
    let r2 := set_attrRow a r1 in
    match res with
    | Some e => (ResultFromCaughtException e, r2)
    | None => (S_OK, set_rowWidth width r2)
    end.

(** [ROW::ClearColumn(column)]: the guard compares with the glyph storage's
    own size. *)
Definition ClearColumn (column : N) (r : ROW) : raised * ROW :=
  if (cr_size (_charRow r) <=? column)%N
  then (Some (ResultException E_INVALIDARG), r)
  else
    let (res, g) := cr_ClearCell column (_charRow r) in
    (res, set_charRow g r).

(** The body of the [for] loop of [ROW::AsCells(startIndex, count)], for the
    [n] iterations that remain: [i] is the loop counter, [it] the attribute
    iterator, [cells] the vector built so far. *)
Fixpoint AsCells_loop (n : nat) (r : ROW) (startIndex i : N) (it : I)
    (cells : list OutputCell) : outcome (list OutputCell) :=
  match n with
  | O => Ok cells
  | S n' =>
      let index := size_t_add startIndex i in
      glyph <- cr_GlyphAt (_charRow r) index ;;
      dbcs <- cr_DbcsAttrAt (_charRow r) index ;;
      attr <- it_deref it ;;
      AsCells_loop n' r startIndex (size_t_add i 1) (it_incr it)
        (cells ++ [mkOutputCell glyph dbcs attr])
  end.

(** [ROW::AsCells(startIndex, count)].  The loop runs for
    [i = 0 .. count-1].  [cells.reserve(count)] sets capacity aside before
    the loop; that it throws when the count is more than a vector can hold
    or memory is short is not modelled, so for such counts the function
    stands for the loop alone. *)
Definition AsCells2 (r : ROW) (startIndex count : N) : outcome (list OutputCell) :=
  let it := it_advance (ar_begin (_attrRow r)) (ptrdiff_of_size_t startIndex) in
  AsCells_loop (N.to_nat count) r startIndex 0%N it [].

(** [ROW::AsCells(startIndex)]: the count is an unsigned subtraction. *)
Definition AsCells1 (r : ROW) (startIndex : N) : outcome (list OutputCell) :=
  AsCells2 r startIndex (size_t_sub (size r) startIndex).

(** [ROW::AsCells()] *)
Definition AsCells0 (r : ROW) : outcome (list OutputCell) :=
  AsCells2 r 0%N (size r).

(** [ROW::at(column)]; [at] is a reserved word here, hence the prefix.  The
    braced initialiser evaluates its three elements from left to right. *)
Definition ROW_at (r : ROW) (column : N) : outcome OutputCell :=
  glyph <- cr_GlyphAt (_charRow r) column ;;
  dbcs <- cr_DbcsAttrAt (_charRow r) column ;;
  attr <- ar_GetAttrByColumn (_attrRow r) column ;;
  Ok (mkOutputCell glyph dbcs attr).

(** [m] is a vector of [count] cells, the cell at position [i] being the one
    [ROW::at] gives for column [startColumn + i]. *)
Definition yields_columns (r : ROW) (startColumn count : N)
    (m : outcome (list OutputCell)) : Prop :=
  exists cells,
    m = Ok cells /\
    N.of_nat (length cells) = count /\
    forall i cell, nth_error cells i = Some cell ->
                   ROW_at r (startColumn + N.of_nat i)%N = Ok cell.

(** The three widths the row keeps in step. *)
Definition WidthInvariant (r : ROW) : Prop :=
  cr_size (_charRow r) = _rowWidth r /\ ar_size (_attrRow r) = _rowWidth r.

(** *** Sequences of calls on one row *)

Inductive call : Type :=
| CallResize (width : N)
| CallReset (Attr : TextAttribute).

(** One call: whether it reported success, and the row afterwards. *)
Definition step (c : call) (r : ROW) : bool * ROW :=
  match c with
  | CallResize width => let (hr, r') := Resize width r in (SUCCEEDED hr, r')
  | CallReset Attr => Reset Attr r
  end.

Fixpoint run (cs : list call) (r : ROW) : ROW :=
  match cs with
  | [] => r
  | c :: cs' => run cs' (snd (step c r))
  end.

(** Whether the widths are still in step after the calls [cs] made on [r],
    as far as the calls tell: a [Resize] whose glyph step fails changes
    nothing in that respect, one whose attribute step throws after the glyph
    step succeeded puts them out of step, one that succeeds puts them in
    step, and a [Reset] changes nothing.  [so_far] is the answer for the
    calls before [cs] ([true] right after a successful construction). *)
Fixpoint no_attribute_step_failure (cs : list call) (r : ROW) (so_far : bool) : bool :=
  match cs with
  | [] => so_far
  | c :: cs' =>
      no_attribute_step_failure cs' (snd (step c r))
        match c with
        | CallResize width =>
            if FAILED (fst (cr_Resize width (_charRow r))) then so_far
            else
              match fst (ar_Resize width (_attrRow r)) with
              | Some _ => false
              | None => true
              end
        | CallReset _ => so_far
        end
  end.

End RowDefinitions.

Arguments ROW G A : clear implicits.

(* ------------------------------------------------------------------ *)
(** ** The owning buffer and calls in sequence *)

(** Modelled from the spec: the owning buffer is declared outside Row.cpp;
    the row only asks it for its Unicode storage.  [U] identifies a
    storage. *)
Class TextBufferOps (U : Type) : Type := {
  tb_GetUnicodeStorage : TextBufferPtr -> U
}.

Definition nullptr : TextBufferPtr := 0%N.

Section RowCalls.

Context {G A I : Type} {crops : CharRowOps G} {arops : AttrRowOps A I}
        {wil : ErrorMacros} {U : Type} {tbops : TextBufferOps U}.

(** [ROW::GetUnicodeStorage]: [_pParent] is dereferenced without a check, so
    a null parent is undefined behaviour. *)
Definition GetUnicodeStorage (r : ROW G A) : outcome U :=
  if (_pParent r =? nullptr)%N then Undefined
  else Ok (tb_GetUnicodeStorage (_pParent r)).

(** The member functions that change a row. *)
Inductive member_call : Type :=
| DoSetId (id : SHORT)
| DoReset (Attr : TextAttribute)
| DoResize (width : N)
| DoClearColumn (column : N).

(** The row after one call, whether the call returned or threw. *)
Definition invoke (m : member_call) (r : ROW G A) : ROW G A :=
  match m with
  | DoSetId id => SetId id r
  | DoReset Attr => snd (Reset Attr r)
  | DoResize width => snd (Resize width r)
  | DoClearColumn column => snd (ClearColumn column r)
  end.

Fixpoint invoke_all (ms : list member_call) (r : ROW G A) : ROW G A :=
  match ms with
  | [] => r
  | m :: ms' => invoke_all ms' (invoke m r)
  end.

(** The argument of the last [SetId] among [ms], or [id] when there is none. *)
Fixpoint last_SetId (ms : list member_call) (id : SHORT) : SHORT :=
  match ms with
  | [] => id
  | DoSetId id' :: ms' => last_SetId ms' id'
  | _ :: ms' => last_SetId ms' id
  end.

(** Whether the most recent [Resize] among the calls [ms] made on [r]
    returned a success code; [so_far] is the answer for the calls before. *)
Fixpoint latest_Resize_ok (ms : list member_call) (r : ROW G A)
    (so_far : bool) : bool :=
  match ms with
  | [] => so_far
  | m :: ms' =>
      latest_Resize_ok ms' (invoke m r)
        match m with
        | DoResize width => SUCCEEDED (fst (Resize width r))
        | _ => so_far
        end
  end.

(** The attribute iterator of [AsCells(startIndex, count)] when the loop
    reaches its [k]-th iteration: moved to [startIndex] once, incremented
    [k] times. *)
Definition AsCells_iterator (r : ROW G A) (startIndex : N) (k : nat) : I :=
  Nat.iter k it_incr
    (it_advance (ar_begin (_attrRow r)) (ptrdiff_of_size_t startIndex)).

End RowCalls.

(* ------------------------------------------------------------------ *)
(** ** The collaborators' contracts *)

(** Modelled from the spec: what the row may rely on from the glyph storage.
    A successful construction or resize yields the requested size; a reset
    keeps the size and leaves every column blank; clearing a column in range
    succeeds, blanks that column and touches no other; reading a column is
    bounds-checked. *)
Class CharRowContract {G : Type} (ops : CharRowOps G) : Prop := {
  cr_new_size : forall w g, cr_new w = Ok g -> cr_size g = w;
  cr_Reset_size : forall g, cr_size (cr_Reset g) = cr_size g;
  cr_Reset_blank : forall g c, (c < cr_size g)%N ->
    cr_GlyphAt (cr_Reset g) c = Ok blank_glyph;
  cr_Resize_size : forall w g, FAILED (fst (cr_Resize w g)) = false ->
    cr_size (snd (cr_Resize w g)) = w;
  cr_ClearCell_ok : forall c g, (c < cr_size g)%N ->
    fst (cr_ClearCell c g) = None;
  cr_ClearCell_size : forall c g, (c < cr_size g)%N ->
    cr_size (snd (cr_ClearCell c g)) = cr_size g;
  cr_ClearCell_blank : forall c g, (c < cr_size g)%N ->
    cr_GlyphAt (snd (cr_ClearCell c g)) c = Ok blank_glyph;
  cr_ClearCell_other : forall c g j, (c < cr_size g)%N -> j <> c ->
    cr_GlyphAt (snd (cr_ClearCell c g)) j = cr_GlyphAt g j /\
    cr_DbcsAttrAt (snd (cr_ClearCell c g)) j = cr_DbcsAttrAt g j;
  cr_GlyphAt_in : forall g c, (c < cr_size g)%N -> is_Ok (cr_GlyphAt g c);
  cr_GlyphAt_out : forall g c, (cr_size g <= c)%N -> is_Throw (cr_GlyphAt g c);
  cr_DbcsAttrAt_in : forall g c, (c < cr_size g)%N -> is_Ok (cr_DbcsAttrAt g c)
}.

(** Modelled from the spec: what the row may rely on from the attribute
    storage.  A successful construction or resize yields the requested width;
    a reset keeps the width, fills every column when it succeeds and leaves
    every column's attribute as it was when it fails; random access is
    bounds-checked; an iterator moved to a column of the row yields that
    column's attribute, and one increment moves it to the next column. *)
Class AttrRowContract {A I : Type} (ops : AttrRowOps A I) : Prop := {
  ar_new_size : forall w attr a, ar_new w attr = Ok a -> ar_size a = w;
  ar_Reset_size : forall attr a, ar_size (snd (ar_Reset attr a)) = ar_size a;
  ar_Reset_fill : forall attr a c, fst (ar_Reset attr a) = None ->
    (c < ar_size a)%N ->
    ar_GetAttrByColumn (snd (ar_Reset attr a)) c = Ok attr;
  ar_Reset_stale : forall attr a e c, fst (ar_Reset attr a) = Some e ->
    ar_GetAttrByColumn (snd (ar_Reset attr a)) c = ar_GetAttrByColumn a c;
  ar_Resize_size : forall w a, fst (ar_Resize w a) = None ->
    ar_size (snd (ar_Resize w a)) = w;
  ar_GetAttrByColumn_in : forall a c, (c < ar_size a)%N ->
    is_Ok (ar_GetAttrByColumn a c);
  ar_GetAttrByColumn_out : forall a c, (ar_size a <= c)%N ->
    is_Throw (ar_GetAttrByColumn a c);
  it_deref_advance : forall a c, (c < ar_size a)%N ->
    it_deref (it_advance (ar_begin a) (Z.of_N c)) = ar_GetAttrByColumn a c;
  it_incr_advance : forall a c, (c < ar_size a)%N ->
    it_incr (it_advance (ar_begin a) (Z.of_N c)) =
    it_advance (ar_begin a) (Z.of_N (c + 1))
}.

(** Modelled from the spec: a glyph resize that fails has no partial effect;
    the storage keeps the size it had. *)
Class CharRowResizeContract {G : Type} (ops : CharRowOps G) : Prop := {
  cr_Resize_failed_size : forall w g, FAILED (fst (cr_Resize w g)) = true ->
    cr_size (snd (cr_Resize w g)) = cr_size g
}.

(** Modelled from the spec: [CATCH_RETURN] propagates a failure. *)
Class ErrorMacrosContract (wil : ErrorMacros) : Prop := {
  caught_exception_failed : forall e, FAILED (ResultFromCaughtException e) = true
}.

(* ------------------------------------------------------------------ *)
(** ** A concrete pair of storages *)

Module Model.

(** Modelled from the spec: a storage operation that needs memory may fail.
    A heap lists whether the next allocation requests succeed; when the list
    is used up, allocation succeeds. *)
Definition heap := list bool.

Definition allocate (h : heap) : bool * heap :=
  match h with
  | [] => (true, [])
  | b :: h' => (b, h')
  end.

(** *** Glyph storage *)

(** Modelled from the spec: what the glyph storage keeps for one column. *)
Record CharRowCell : Type := mkCell {
  cell_glyph : Glyph;
  cell_dbcs : DbcsAttribute
}.

(** Modelled from the spec: the empty default of a column, a blank. *)
Definition default_cell : CharRowCell := mkCell [32%N] Single.

(** Modelled from the spec: the glyph storage, one cell per column. *)
Record CharRow : Type := mkCharRow {
  _data : list CharRowCell;
  cr_heap : heap
}.

(** The list [l] with [x] at index [n]; unchanged when [n] is out of range. *)
Fixpoint set_nth {X : Type} (n : nat) (x : X) (l : list X) : list X :=
  match l, n with
  | [], _ => []
  | _ :: l', O => x :: l'
  | y :: l', S n' => y :: set_nth n' x l'
  end.

(** Modelled from the spec: [CharRow::size], the number of columns. *)
Definition CharRow_size (g : CharRow) : N := N.of_nat (length (_data g)).

(** Modelled from the spec: the constructor, [w] empty columns. *)
Definition CharRow_new (h : heap) (w : N) : outcome CharRow :=
  let (ok, h') := allocate h in
  if ok then Ok (mkCharRow (repeat default_cell (N.to_nat w)) h')
  else Throw bad_alloc.

(** Modelled from the spec: [CharRow::Reset] clears every column to the empty
    default and cannot fail. *)
Definition CharRow_Reset (g : CharRow) : CharRow :=
  mkCharRow (map (fun _ => default_cell) (_data g)) (cr_heap g).

(** Modelled from the spec: [CharRow::Resize] keeps the columns that still
    exist and adds empty ones; growing needs memory, and a failure is
    returned as an [HRESULT] with the columns as they were. *)
Definition CharRow_Resize (newSize : N) (g : CharRow) : HRESULT * CharRow :=
  if (newSize <=? CharRow_size g)%N
  then (S_OK, mkCharRow (firstn (N.to_nat newSize) (_data g)) (cr_heap g))
  else
    let (ok, h') := allocate (cr_heap g) in
    if ok
    then (S_OK,
          mkCharRow (_data g ++
                     repeat default_cell (N.to_nat (newSize - CharRow_size g)))
                    h')
    else (E_OUTOFMEMORY, mkCharRow (_data g) h').

(** Modelled from the spec: [CharRow::ClearCell] clears one column. *)
Definition CharRow_ClearCell (column : N) (g : CharRow) : raised * CharRow :=
  match nth_error (_data g) (N.to_nat column) with
  | Some _ =>
      (None,
       mkCharRow (set_nth (N.to_nat column) default_cell (_data g)) (cr_heap g))
  | None => (Some out_of_range, g)
  end.

(** Modelled from the spec: [CharRow::GlyphAt] and [CharRow::DbcsAttrAt],
    the bounds-checked reads of a column's glyph and width class. *)
Definition CharRow_GlyphAt (g : CharRow) (column : N) : outcome Glyph :=
  match nth_error (_data g) (N.to_nat column) with
  | Some c => Ok (cell_glyph c)
  | None => Throw (ResultException E_INVALIDARG)
  end.

Definition CharRow_DbcsAttrAt (g : CharRow) (column : N) : outcome DbcsAttribute :=
  match nth_error (_data g) (N.to_nat column) with
  | Some c => Ok (cell_dbcs c)
  | None => Throw out_of_range
  end.

(** *** Attribute storage *)

(** Modelled from the spec: one run of a repeated attribute. *)
Record TextAttributeRun : Type := mkRun {
  run_length : positive;
  run_attr : TextAttribute
}.

(** Modelled from the spec: the attribute storage, the row's attributes as
    consecutive runs. *)
Record ATTR_ROW : Type := mkATTR_ROW {
  _list : list TextAttributeRun;
  ar_heap : heap
}.

(** The number of columns the runs cover. *)
Fixpoint runs_width (l : list TextAttributeRun) : N :=
  match l with
  | [] => 0%N
  | r :: l' => (Npos (run_length r) + runs_width l')%N
  end.

(** The attribute of column [c], found by walking the runs from the start. *)
Fixpoint runs_attr (l : list TextAttributeRun) (c : N) : option TextAttribute :=
  match l with
  | [] => None
  | r :: l' =>
      if (c <? Npos (run_length r))%N then Some (run_attr r)
      else runs_attr l' (c - Npos (run_length r))%N
  end.

(** A single run of [attr] over [w] columns. *)
Definition one_run (w : N) (attr : TextAttribute) : list TextAttributeRun :=
  match w with
  | N0 => []
  | Npos p => [mkRun p attr]
  end.

(** The first [w] columns of the runs. *)
Fixpoint take_columns (w : N) (l : list TextAttributeRun) : list TextAttributeRun :=
  match l with
  | [] => []
  | r :: l' =>
      match w with
      | N0 => []
      | Npos p =>
          if (run_length r <? p)%positive
          then r :: take_columns (Npos p - Npos (run_length r))%N l'
          else [mkRun p (run_attr r)]
      end
  end.

(** Modelled from the spec: the storage's own default fill of [d] new
    columns.  The last run grows; an empty row gets a run of attribute 0. *)
Fixpoint extend_last (d : positive) (l : list TextAttributeRun) : list TextAttributeRun :=
  match l with
  | [] => [mkRun d 0%N]
  | [r] => [mkRun (run_length r + d) (run_attr r)]
  | r :: l' => r :: extend_last d l'
  end.

(** Modelled from the spec: the width the attribute storage covers. *)
Definition ATTR_ROW_size (a : ATTR_ROW) : N := runs_width (_list a).

(** Modelled from the spec: the constructor, [w] columns of [attr]. *)
Definition ATTR_ROW_new (h : heap) (w : N) (attr : TextAttribute) : outcome ATTR_ROW :=
  let (ok, h') := allocate h in
  if ok then Ok (mkATTR_ROW (one_run w attr) h') else Throw bad_alloc.

(** Modelled from the spec: [ATTR_ROW::Reset] replaces the runs by a single
    run of [attr] over the current width; it needs memory, and when it fails
    the previous runs stay. *)
Definition ATTR_ROW_Reset (attr : TextAttribute) (a : ATTR_ROW) : raised * ATTR_ROW :=
  let (ok, h') := allocate (ar_heap a) in
  if ok then (None, mkATTR_ROW (one_run (ATTR_ROW_size a) attr) h')
  else (Some bad_alloc, mkATTR_ROW (_list a) h').

(** Modelled from the spec: [ATTR_ROW::Resize] truncates the runs or extends
    them by the default fill; growing needs memory, and when it fails the
    previous runs stay. *)
Definition ATTR_ROW_Resize (newWidth : N) (a : ATTR_ROW) : raised * ATTR_ROW :=
  match (newWidth - ATTR_ROW_size a)%N with
  | N0 => (None, mkATTR_ROW (take_columns newWidth (_list a)) (ar_heap a))
  | Npos d =>
      let (ok, h') := allocate (ar_heap a) in
      if ok then (None, mkATTR_ROW (extend_last d (_list a)) h')
      else (Some bad_alloc, mkATTR_ROW (_list a) h')
  end.

(** Modelled from the spec: [ATTR_ROW::GetAttrByColumn], the bounds-checked
    random access by column. *)
Definition ATTR_ROW_GetAttrByColumn (a : ATTR_ROW) (column : N) : outcome TextAttribute :=
  match runs_attr (_list a) column with
  | Some attr => Ok attr
  | None => Throw (ResultException E_INVALIDARG)
  end.

(** Modelled from the spec: the forward iterator over the attributes: the
    runs from the current one on, and the position inside the current run. *)
Record AttrRowIterator : Type := mkIterator {
  it_runs : list TextAttributeRun;
  it_index : N
}.

(** Modelled from the spec: [ATTR_ROW::begin], the iterator at column 0. *)
Definition ATTR_ROW_begin (a : ATTR_ROW) : AttrRowIterator :=
  mkIterator (_list a) 0%N.

(** Modelled from the spec: one step forward, inside the current run or on
    to the next one. *)
Definition iterator_incr (it : AttrRowIterator) : AttrRowIterator :=
  match it_runs it with
  | [] => it
  | r :: l' =>
      if (it_index it + 1 <? Npos (run_length r))%N
      then mkIterator (it_runs it) (it_index it + 1)%N
      else mkIterator l' 0%N
  end.

(** Modelled from the spec: [n] steps forward; a negative distance leaves
    the row. *)
Definition iterator_advance (it : AttrRowIterator) (n : Z) : AttrRowIterator :=
  if (n <? 0)%Z then mkIterator [] 0%N
  else Nat.iter (Z.to_nat n) iterator_incr it.

(** Modelled from the spec: the attribute of the current run; past the last
    run there is nothing to read. *)
Definition iterator_deref (it : AttrRowIterator) : outcome TextAttribute :=
  match it_runs it with
  | [] => Undefined
  | r :: _ => Ok (run_attr r)
  end.

(** *** The storages as implementations of the interfaces

    [h] is the heap the constructors start from. *)

Definition CharRow_ops (h : heap) : CharRowOps CharRow := {|
  cr_new := CharRow_new h;
  cr_size := CharRow_size;
  cr_Reset := CharRow_Reset;
  cr_Resize := CharRow_Resize;
  cr_ClearCell := CharRow_ClearCell;
  cr_GlyphAt := CharRow_GlyphAt;
  cr_DbcsAttrAt := CharRow_DbcsAttrAt;
  blank_glyph := cell_glyph default_cell
|}.

Definition ATTR_ROW_ops (h : heap) : AttrRowOps ATTR_ROW AttrRowIterator := {|
  ar_new := ATTR_ROW_new h;
  ar_size := ATTR_ROW_size;
  ar_Reset := ATTR_ROW_Reset;
  ar_Resize := ATTR_ROW_Resize;
  ar_GetAttrByColumn := ATTR_ROW_GetAttrByColumn;
  ar_begin := ATTR_ROW_begin;
  it_advance := iterator_advance;
  it_incr := iterator_incr;
  it_deref := iterator_deref
|}.

(** The failure code reported for an exception that carries none. *)
Definition E_UNHANDLED : HRESULT := (0x8007023E - 2 ^ 32)%Z.

(** Modelled from the spec: [CATCH_RETURN] propagates the failure of the
    exception it catches. *)
Definition wil_macros : ErrorMacros := {|
  ResultFromCaughtException := fun e =>
    match e with
    | ResultException hr => if FAILED hr then hr else E_UNHANDLED
    | bad_alloc => E_OUTOFMEMORY
    | narrowing_error | out_of_range => E_UNHANDLED
    end
|}.

End Model.

(** *** Rows to run the functions on *)

Module Demo.

Import Model.

(** Storages whose constructors find every allocation succeeding. *)
Definition glyphs : CharRowOps CharRow := CharRow_ops [].
Definition attrs : AttrRowOps ATTR_ROW AttrRowIterator := ATTR_ROW_ops [].

(** An attribute storage whose constructor's allocation succeeds and whose
    next allocation fails. *)
Definition attrs_short_of_memory : AttrRowOps ATTR_ROW AttrRowIterator :=
  ATTR_ROW_ops [true; false].

Definition cell (ch : N) : CharRowCell := mkCell [ch] Single.

Definition abcdef : list CharRowCell :=
  [cell 97; cell 98; cell 99; cell 100; cell 101; cell 102]%N.

(** Six columns [abcdef], the first three of attribute 1, the last three of
    attribute 2. *)
Definition row6 : ROW CharRow ATTR_ROW :=
  mkROW 3%Z 6%N (mkCharRow abcdef [])
        (mkATTR_ROW [mkRun 3 1%N; mkRun 3 2%N] []) 0%N.

(** The same row when the next allocation of its attribute storage fails. *)
Definition row6_attr_fails : ROW CharRow ATTR_ROW :=
  mkROW 3%Z 6%N (mkCharRow abcdef [])
        (mkATTR_ROW [mkRun 3 1%N; mkRun 3 2%N] [false]) 0%N.

(** The same row when the next allocation of its glyph storage fails. *)
Definition row6_glyph_fails : ROW CharRow ATTR_ROW :=
  mkROW 3%Z 6%N (mkCharRow abcdef [false])
        (mkATTR_ROW [mkRun 3 1%N; mkRun 3 2%N] []) 0%N.

(** What [ROW(0, 5, 7, 0)] builds over [attrs_short_of_memory]. *)
Definition row5_short_of_memory : ROW CharRow ATTR_ROW :=
  mkROW 0%Z 5%N (mkCharRow (repeat default_cell 5) [])
        (mkATTR_ROW [mkRun 5 7%N] [false]) 0%N.

(** A glyph storage whose constructor's allocation succeeds and whose next
    allocation fails, and what [ROW(0, 5, 7, 0)] builds over it. *)
Definition glyphs_short_of_memory : CharRowOps CharRow :=
  CharRow_ops [true; false].

Definition row5_glyphs_short_of_memory : ROW CharRow ATTR_ROW :=
  mkROW 0%Z 5%N (mkCharRow (repeat default_cell 5) [false])
        (mkATTR_ROW [mkRun 5 7%N] []) 0%N.

(** What [ROW(0, 5, 7, 0)] builds over [attrs]. *)
Definition row5 : ROW CharRow ATTR_ROW :=
  mkROW 0%Z 5%N (mkCharRow (repeat default_cell 5) [])
        (mkATTR_ROW [mkRun 5 7%N] []) 0%N.

(** Modelled from the spec: a buffer's Unicode storage, identified by the
    address of the buffer that owns it. *)
Definition buffers : TextBufferOps N := {|
  tb_GetUnicodeStorage := fun p => p
|}.

(** What [ROW(2, 5, 7, 4096)] builds over [attrs]. *)
Definition row5_owned : ROW CharRow ATTR_ROW :=
  mkROW 2%Z 5%N (mkCharRow (repeat default_cell 5) [])
        (mkATTR_ROW [mkRun 5 7%N] []) 4096%N.

End Demo.

(* ------------------------------------------------------------------ *)
(** ** Arithmetic of the machine integers *)

Lemma size_t_add_small (a b : N) :
  (a + b < size_t_modulus)%N -> size_t_add a b = (a + b)%N.
Proof.
  intros H. unfold size_t_add. apply N.mod_small. exact H.
Qed.

Lemma size_t_sub_le (a b : N) :
  (b <= a)%N -> in_size_t a -> size_t_sub a b = (a - b)%N.
Proof.
  unfold size_t_sub, in_size_t. intros Hle Ha.
  rewrite Z.mod_small by lia. lia.
Qed.

Lemma size_t_sub_wraps (a b : N) :
  (a < b)%N -> in_size_t b ->
  size_t_sub a b = (size_t_modulus - (b - a))%N.
Proof.
  unfold size_t_sub, in_size_t. intros Hlt Hb.
  replace (Z.of_N a - Z.of_N b)%Z
    with (Z.of_N (size_t_modulus - (b - a)) + (-1) * Z.of_N size_t_modulus)%Z
    by lia.
  rewrite Z.mod_add by (unfold size_t_modulus; lia).
  rewrite Z.mod_small by lia. lia.
Qed.

Lemma ptrdiff_of_size_t_small (n : N) :
  (n <= PTRDIFF_MAX)%N -> ptrdiff_of_size_t n = Z.of_N n.
Proof.
  intros H. unfold ptrdiff_of_size_t.
  assert (Hm : (PTRDIFF_MAX < size_t_modulus)%N) by (vm_compute; reflexivity).
  rewrite Z.mod_small by lia.
  destruct (Z.leb_spec (Z.of_N n) (Z.of_N PTRDIFF_MAX)); [reflexivity | lia].
Qed.

Lemma PTRDIFF_MAX_in_size_t (n : N) : (n <= PTRDIFF_MAX)%N -> in_size_t n.
Proof.
  unfold in_size_t. intros H.
  assert (Hm : (PTRDIFF_MAX < size_t_modulus)%N) by (vm_compute; reflexivity).
  lia.
Qed.

Lemma SUCCEEDED_not_FAILED (hr : HRESULT) : SUCCEEDED hr = negb (FAILED hr).
Proof.
  unfold SUCCEEDED, FAILED.
  destruct (Z.leb_spec 0 hr), (Z.ltb_spec hr 0); simpl; try reflexivity; lia.
Qed.

Lemma bind_Ok_inv {X Y : Type} (m : outcome X) (k : X -> outcome Y) (y : Y) :
  bind m k = Ok y -> exists x, m = Ok x /\ k x = Ok y.
Proof.
  destruct m as [x | e | ]; simpl; intros H; try discriminate.
  exists x. split; [reflexivity | exact H].
Qed.

(* ------------------------------------------------------------------ *)
(** ** Properties of ROW over any storages *)

Section RowTheory.

Context {G A I : Type} {crops : CharRowOps G} {arops : AttrRowOps A I}
        {wil : ErrorMacros}.

(** *** Identity *)

(** C10. [SetId] stores the id it is given and touches no other member:
    [GetId] afterwards returns that id, and the width, both storages and the
    parent pointer are those of the row before. *)
Theorem SetId_changes_only_the_id (id : SHORT) (r : ROW G A) :
  GetId (SetId id r) = id /\
  size (SetId id r) = size r /\
  GetCharRow (SetId id r) = GetCharRow r /\
  GetAttrRow (SetId id r) = GetAttrRow r /\
  _pParent (SetId id r) = _pParent r.
Proof.
  unfold GetId, SetId, size, GetCharRow, GetAttrRow, set_id. simpl.
  repeat split.
Qed.

(** *** Resize *)

Lemma Resize_charRow (width : N) (r : ROW G A) :
  _charRow (snd (Resize width r)) = snd (cr_Resize width (_charRow r)).
Proof.
  unfold Resize.
  destruct (cr_Resize width (_charRow r)) as [hr g]. simpl.
  destruct (FAILED hr); [reflexivity |].
  destruct (ar_Resize width (_attrRow r)) as [res a'].
  destruct res; reflexivity.
Qed.

Lemma Resize_glyph_failed (width : N) (r : ROW G A) :
  FAILED (fst (cr_Resize width (_charRow r))) = true ->
  Resize width r =
  (fst (cr_Resize width (_charRow r)),
   set_charRow (snd (cr_Resize width (_charRow r))) r).
Proof.
  unfold Resize.
  destruct (cr_Resize width (_charRow r)) as [hr g]. simpl.
  intros ->. reflexivity.
Qed.

Lemma Resize_attr_failed (width : N) (r : ROW G A) (e : exn) :
  FAILED (fst (cr_Resize width (_charRow r))) = false ->
  fst (ar_Resize width (_attrRow r)) = Some e ->
  Resize width r =
  (ResultFromCaughtException e,
   set_attrRow (snd (ar_Resize width (_attrRow r)))
     (set_charRow (snd (cr_Resize width (_charRow r))) r)).
Proof.
  unfold Resize.
  destruct (cr_Resize width (_charRow r)) as [hr g]. simpl.
  intros ->. simpl.
  destruct (ar_Resize width (_attrRow r)) as [res a']. simpl.
  intros ->. reflexivity.
Qed.

Lemma Resize_both_ok (width : N) (r : ROW G A) :
  FAILED (fst (cr_Resize width (_charRow r))) = false ->
  fst (ar_Resize width (_attrRow r)) = None ->
  Resize width r =
  (S_OK,
   set_rowWidth width
     (set_attrRow (snd (ar_Resize width (_attrRow r)))
        (set_charRow (snd (cr_Resize width (_charRow r))) r))).
Proof.
  unfold Resize.
  destruct (cr_Resize width (_charRow r)) as [hr g]. simpl.
  intros ->. simpl.
  destruct (ar_Resize width (_attrRow r)) as [res a']. simpl.
  intros ->. reflexivity.
Qed.

(** *** Reset *)

Lemma Reset_unfold (Attr : TextAttribute) (r : ROW G A) :
  Reset Attr r =
  (match fst (ar_Reset Attr (_attrRow r)) with Some _ => false | None => true end,
   set_attrRow (snd (ar_Reset Attr (_attrRow r)))
     (set_charRow (cr_Reset (_charRow r)) r)).
Proof.
  unfold Reset. simpl.
  destruct (ar_Reset Attr (_attrRow r)) as [res a']. simpl.
  destruct res; reflexivity.
Qed.

(** C2. [Resize] resizes the glyph storage first.  When that fails, its
    failure is returned, the attribute storage is not touched and the
    recorded width stays.  When it succeeds and the attribute resize throws,
    a failure is returned and the recorded width stays.  The recorded width
    becomes [width], with [S_OK] returned, only when both succeed. *)
Theorem Resize_failure_policy {wilc : ErrorMacrosContract wil}
    (width : N) (r : ROW G A) :
  _charRow (snd (Resize width r)) = snd (cr_Resize width (_charRow r)) /\
  (FAILED (fst (cr_Resize width (_charRow r))) = true ->
     fst (Resize width r) = fst (cr_Resize width (_charRow r)) /\
     size (snd (Resize width r)) = size r /\
     _attrRow (snd (Resize width r)) = _attrRow r) /\
  (FAILED (fst (cr_Resize width (_charRow r))) = false ->
     forall e, fst (ar_Resize width (_attrRow r)) = Some e ->
     fst (Resize width r) = ResultFromCaughtException e /\
     FAILED (fst (Resize width r)) = true /\
     size (snd (Resize width r)) = size r) /\
  (FAILED (fst (cr_Resize width (_charRow r))) = false ->
     fst (ar_Resize width (_attrRow r)) = None ->
     fst (Resize width r) = S_OK /\
     size (snd (Resize width r)) = width) /\
  (size (snd (Resize width r)) <> size r ->
     FAILED (fst (cr_Resize width (_charRow r))) = false /\
     fst (ar_Resize width (_attrRow r)) = None).
Proof.
  split; [apply Resize_charRow |].
  split; [| split; [| split]].
  - intros Hg. rewrite (Resize_glyph_failed _ _ Hg). simpl. auto.
  - intros Hg e Ha. rewrite (Resize_attr_failed _ _ _ Hg Ha). simpl.
    split; [reflexivity |]. split; [apply caught_exception_failed | reflexivity].
  - intros Hg Ha. rewrite (Resize_both_ok _ _ Hg Ha). simpl. auto.
  - intros Hw.
    destruct (FAILED (fst (cr_Resize width (_charRow r)))) eqn:Hg.
    + rewrite (Resize_glyph_failed _ _ Hg) in Hw. simpl in Hw.
      exfalso. apply Hw. reflexivity.
    + split; [reflexivity |].
      destruct (fst (ar_Resize width (_attrRow r))) as [e |] eqn:Ha;
        [| reflexivity].
      rewrite (Resize_attr_failed _ _ _ Hg Ha) in Hw. simpl in Hw.
      exfalso. apply Hw. reflexivity.
Qed.

(** A [Resize] that reports success has resized both storages. *)
Lemma Resize_succeeded_inv {wilc : ErrorMacrosContract wil}
    (width : N) (r : ROW G A) :
  SUCCEEDED (fst (Resize width r)) = true ->
  FAILED (fst (cr_Resize width (_charRow r))) = false /\
  fst (ar_Resize width (_attrRow r)) = None.
Proof.
  rewrite SUCCEEDED_not_FAILED. intros Hs.
  destruct (FAILED (fst (cr_Resize width (_charRow r)))) eqn:Hg.
  - rewrite (Resize_glyph_failed _ _ Hg) in Hs. simpl in Hs.
    rewrite Hg in Hs. discriminate.
  - split; [reflexivity |].
    destruct (fst (ar_Resize width (_attrRow r))) as [e |] eqn:Ha;
      [| reflexivity].
    rewrite (Resize_attr_failed _ _ _ Hg Ha) in Hs. simpl in Hs.
    rewrite caught_exception_failed in Hs. discriminate.
Qed.

(** C3. [Reset] always resets the glyph storage, so every column's glyph is
    blank afterwards.  When the attribute reset throws, [Reset] returns
    [false] and every column still has the attribute it had; when it does
    not throw, [Reset] returns [true]. *)
Theorem Reset_partial_success {crc : CharRowContract crops}
    {arc : AttrRowContract arops} (Attr : TextAttribute) (r : ROW G A) :
  _charRow (snd (Reset Attr r)) = cr_Reset (_charRow r) /\
  (forall c, (c < cr_size (_charRow r))%N ->
     cr_GlyphAt (_charRow (snd (Reset Attr r))) c = Ok blank_glyph) /\
  (forall e, fst (ar_Reset Attr (_attrRow r)) = Some e ->
     fst (Reset Attr r) = false /\
     forall c, ar_GetAttrByColumn (_attrRow (snd (Reset Attr r))) c =
               ar_GetAttrByColumn (_attrRow r) c) /\
  (fst (ar_Reset Attr (_attrRow r)) = None -> fst (Reset Attr r) = true).
Proof.
  rewrite Reset_unfold. simpl.
  split; [reflexivity |].
  split; [intros c Hc; apply cr_Reset_blank; exact Hc |].
  split.
  - intros e He. rewrite He. split; [reflexivity |].
    intros c. apply (ar_Reset_stale _ _ _ c He).
  - intros ->. reflexivity.
Qed.

(** *** The width invariant *)

Lemma ROW_new_WidthInvariant {crc : CharRowContract crops}
    {arc : AttrRowContract arops}
    (rowId rowWidth : SHORT) (fill : TextAttribute) (p : TextBufferPtr)
    (r : ROW G A) :
  ROW_new rowId rowWidth fill p = Ok r -> WidthInvariant r.
Proof.
  unfold ROW_new, narrow_size_t, narrow_UINT.
  destruct (rowWidth <? 0)%Z; simpl; [discriminate |].
  intros H.
  apply bind_Ok_inv in H. destruct H as [g [Hg H]].
  apply bind_Ok_inv in H. destruct H as [a [Ha H]].
  injection H as <-. unfold WidthInvariant. simpl.
  split; [apply (cr_new_size _ _ Hg) | apply (ar_new_size _ _ _ Ha)].
Qed.

(** A successful [Resize] establishes the invariant, whatever the row was. *)
Lemma Resize_WidthInvariant {crc : CharRowContract crops}
    {arc : AttrRowContract arops} {wilc : ErrorMacrosContract wil}
    (width : N) (r : ROW G A) :
  SUCCEEDED (fst (Resize width r)) = true ->
  WidthInvariant (snd (Resize width r)).
Proof.
  intros Hs. destruct (Resize_succeeded_inv _ _ Hs) as [Hg Ha].
  rewrite (Resize_both_ok _ _ Hg Ha). unfold WidthInvariant. simpl.
  split; [apply cr_Resize_size; exact Hg | apply ar_Resize_size; exact Ha].
Qed.

(** [Reset] keeps all three widths, whether it reports success or not. *)
Lemma Reset_widths {crc : CharRowContract crops}
    {arc : AttrRowContract arops} (Attr : TextAttribute) (r : ROW G A) :
  cr_size (_charRow (snd (Reset Attr r))) = cr_size (_charRow r) /\
  ar_size (_attrRow (snd (Reset Attr r))) = ar_size (_attrRow r) /\
  _rowWidth (snd (Reset Attr r)) = _rowWidth r.
Proof.
  rewrite Reset_unfold. simpl.
  split; [apply cr_Reset_size |]. split; [apply ar_Reset_size | reflexivity].
Qed.

Lemma Reset_WidthInvariant {crc : CharRowContract crops}
    {arc : AttrRowContract arops} (Attr : TextAttribute) (r : ROW G A) :
  WidthInvariant r -> WidthInvariant (snd (Reset Attr r)).
Proof.
  unfold WidthInvariant. intros [Hg Ha].
  destruct (Reset_widths Attr r) as [H1 [H2 H3]].
  rewrite H1, H2, H3. split; assumption.
Qed.

(** A [Resize] whose glyph step fails keeps all three widths. *)
Lemma Resize_glyph_failed_WidthInvariant
    {crr : CharRowResizeContract crops} (width : N) (r : ROW G A) :
  FAILED (fst (cr_Resize width (_charRow r))) = true ->
  WidthInvariant r -> WidthInvariant (snd (Resize width r)).
Proof.
  intros Hg [Hc Ha]. rewrite (Resize_glyph_failed _ _ Hg).
  unfold WidthInvariant. simpl.
  rewrite (cr_Resize_failed_size _ _ Hg). split; assumption.
Qed.

(** A [Resize] in which neither step fails establishes the invariant. *)
Lemma Resize_both_ok_WidthInvariant {crc : CharRowContract crops}
    {arc : AttrRowContract arops} (width : N) (r : ROW G A) :
  FAILED (fst (cr_Resize width (_charRow r))) = false ->
  fst (ar_Resize width (_attrRow r)) = None ->
  WidthInvariant (snd (Resize width r)).
Proof.
  intros Hg Ha. rewrite (Resize_both_ok _ _ Hg Ha).
  unfold WidthInvariant. simpl.
  split; [apply cr_Resize_size; exact Hg | apply ar_Resize_size; exact Ha].
Qed.

Lemma step_Resize_row (width : N) (r : ROW G A) :
  snd (step (CallResize width) r) = snd (Resize width r).
Proof.
  simpl. destruct (Resize width r). reflexivity.
Qed.

Lemma run_WidthInvariant {crc : CharRowContract crops}
    {crr : CharRowResizeContract crops} {arc : AttrRowContract arops}
    (cs : list call) :
  forall (r : ROW G A) (so_far : bool),
  (so_far = true -> WidthInvariant r) ->
  no_attribute_step_failure cs r so_far = true ->
  WidthInvariant (run cs r).
Proof.
  induction cs as [| c cs IH]; intros r so_far Hinv Hflag;
    cbn [run no_attribute_step_failure] in *.
  - apply Hinv. exact Hflag.
  - refine (IH _ _ _ Hflag).
    destruct c as [width | Attr].
    + rewrite step_Resize_row.
      destruct (FAILED (fst (cr_Resize width (_charRow r)))) eqn:Hg.
      * intros Hso. apply (Resize_glyph_failed_WidthInvariant _ _ Hg).
        exact (Hinv Hso).
      * destruct (fst (ar_Resize width (_attrRow r))) as [e |] eqn:Ha.
        -- discriminate.
        -- intros _. apply (Resize_both_ok_WidthInvariant _ _ Hg Ha).
    + intros Hso. apply Reset_WidthInvariant. exact (Hinv Hso).
Qed.

(** C1, as amended.  After a successful construction followed by any
    sequence of [Resize] and [Reset] calls, the glyph storage's width, the
    attribute storage's width and the recorded width are equal, unless a
    [Resize] has failed in its attribute step, after its glyph step
    succeeded, and no [Resize] has succeeded since.  A [Resize] that fails
    in its glyph step and a [Reset], successful or not, keep the widths in
    step, and a [Resize] that succeeds puts them in step. *)
Theorem WidthInvariant_unless_attribute_step_failed
    {crc : CharRowContract crops} {crr : CharRowResizeContract crops}
    {arc : AttrRowContract arops}
    (rowId rowWidth : SHORT) (fill : TextAttribute) (p : TextBufferPtr)
    (r0 : ROW G A) (cs : list call) :
  ROW_new rowId rowWidth fill p = Ok r0 ->
  no_attribute_step_failure cs r0 true = true ->
  WidthInvariant (run cs r0).
Proof.
  intros Hnew Hflag.
  apply (run_WidthInvariant cs r0 true); [| exact Hflag].
  intros _. apply (ROW_new_WidthInvariant _ _ _ _ _ Hnew).
Qed.

(** *** ClearColumn *)

Lemma ClearColumn_out_of_range (column : N) (r : ROW G A) :
  (cr_size (_charRow r) <= column)%N ->
  ClearColumn column r = (Some (ResultException E_INVALIDARG), r).
Proof.
  intros H. unfold ClearColumn.
  destruct (N.leb_spec (cr_size (_charRow r)) column); [reflexivity | lia].
Qed.

Lemma ClearColumn_in_range (column : N) (r : ROW G A) :
  (column < cr_size (_charRow r))%N ->
  ClearColumn column r =
  (fst (cr_ClearCell column (_charRow r)),
   set_charRow (snd (cr_ClearCell column (_charRow r))) r).
Proof.
  intros H. unfold ClearColumn.
  destruct (N.leb_spec (cr_size (_charRow r)) column); [lia |].
  destruct (cr_ClearCell column (_charRow r)); reflexivity.
Qed.

(** C7. On a row whose glyph storage has the recorded width [W],
    [ClearColumn] throws [E_INVALIDARG] for every column from [W] on, throws
    for no column below [W], and leaves the row as it was whenever it
    throws. *)
Theorem ClearColumn_bounds_check {crc : CharRowContract crops}
    (r : ROW G A) (column : N) :
  cr_size (_charRow r) = size r ->
  ((size r <= column)%N ->
     ClearColumn column r = (Some (ResultException E_INVALIDARG), r)) /\
  ((exists e, fst (ClearColumn column r) = Some e) <-> (size r <= column)%N) /\
  (forall e, fst (ClearColumn column r) = Some e ->
     snd (ClearColumn column r) = r).
Proof.
  intros Hw.
  assert (Hout : (size r <= column)%N ->
                 ClearColumn column r = (Some (ResultException E_INVALIDARG), r)).
  { intros H. apply ClearColumn_out_of_range. rewrite Hw. exact H. }
  assert (Hin : (column < size r)%N -> fst (ClearColumn column r) = None).
  { intros H. rewrite ClearColumn_in_range by (rewrite Hw; exact H). simpl.
    apply cr_ClearCell_ok. rewrite Hw. exact H. }
  split; [exact Hout |]. split.
  - split.
    + intros [e He]. destruct (N.le_gt_cases (size r) column) as [H | H];
        [exact H |].
      rewrite (Hin H) in He. discriminate.
    + intros H. rewrite (Hout H). simpl. eexists. reflexivity.
  - intros e He. destruct (N.le_gt_cases (size r) column) as [H | H].
    + rewrite (Hout H). reflexivity.
    + rewrite (Hin H) in He. discriminate.
Qed.

(** C6. On a row that satisfies the width invariant, [ClearColumn k] for a
    column [k] in range returns normally; afterwards the cell of column [k]
    has the blank glyph and the attribute it had, the cell of every other
    column is the one it was, and the recorded width and the attribute
    storage are unchanged. *)
Theorem ClearColumn_isolation {crc : CharRowContract crops}
    {arc : AttrRowContract arops} (r : ROW G A) (k : N) :
  WidthInvariant r -> (k < size r)%N ->
  fst (ClearColumn k r) = None /\
  size (snd (ClearColumn k r)) = size r /\
  _attrRow (snd (ClearColumn k r)) = _attrRow r /\
  (exists c c', ROW_at r k = Ok c /\
                ROW_at (snd (ClearColumn k r)) k = Ok c' /\
                oc_glyph c' = blank_glyph /\
                oc_attr c' = oc_attr c) /\
  (forall j, j <> k -> ROW_at (snd (ClearColumn k r)) j = ROW_at r j).
Proof.
  intros [Hg Ha] Hk. unfold size in *.
  assert (Hk' : (k < cr_size (_charRow r))%N) by (rewrite Hg; exact Hk).
  rewrite (ClearColumn_in_range _ _ Hk'). simpl.
  split; [apply cr_ClearCell_ok; exact Hk' |].
  split; [reflexivity |]. split; [reflexivity |]. split.
  - destruct (cr_GlyphAt_in _ _ Hk') as [gl Hgl].
    destruct (cr_DbcsAttrAt_in _ _ Hk') as [d Hd].
    assert (Hka : (k < ar_size (_attrRow r))%N) by (rewrite Ha; exact Hk).
    destruct (ar_GetAttrByColumn_in _ _ Hka) as [at0 Hat].
    assert (Hk2 : (k < cr_size (snd (cr_ClearCell k (_charRow r))))%N)
      by (rewrite cr_ClearCell_size by exact Hk'; exact Hk').
    destruct (cr_DbcsAttrAt_in _ _ Hk2) as [d' Hd'].
    exists (mkOutputCell gl d at0), (mkOutputCell blank_glyph d' at0).
    unfold ROW_at. simpl.
    rewrite Hgl, Hd, Hat. simpl.
    rewrite (cr_ClearCell_blank _ _ Hk'). simpl.
    rewrite Hd'. simpl. auto.
  - intros j Hj. unfold ROW_at. simpl.
    destruct (cr_ClearCell_other _ _ j Hk' Hj) as [H1 H2].
    rewrite H1, H2. reflexivity.
Qed.

(** *** Cell extraction *)

Section Extraction.

Context {crc : CharRowContract crops} {arc : AttrRowContract arops}.

Variable r : ROW G A.
Hypothesis r_widths : WidthInvariant r.
Hypothesis r_addressable : (size r <= PTRDIFF_MAX)%N.

(** One iteration of the loop at a column of the row: the cell it appends is
    the one [ROW::at] gives, and the iterator moves to the next column. *)
Lemma AsCells_loop_step (n : nat) (s i : N) (cells : list OutputCell) :
  (s + i < size r)%N ->
  exists cell,
    ROW_at r (s + i)%N = Ok cell /\
    AsCells_loop (S n) r s i
      (it_advance (ar_begin (_attrRow r)) (Z.of_N (s + i))) cells =
    AsCells_loop n r s (i + 1)%N
      (it_advance (ar_begin (_attrRow r)) (Z.of_N (s + (i + 1)))) 
      (cells ++ [cell]).
Proof.
  intros Hlt. destruct r_widths as [Hg Ha]. unfold size in *.
  pose proof (PTRDIFF_MAX_in_size_t _ r_addressable) as Hsz.
  unfold in_size_t in Hsz.
  assert (Hcg : (s + i < cr_size (_charRow r))%N) by (rewrite Hg; exact Hlt).
  assert (Hca : (s + i < ar_size (_attrRow r))%N) by (rewrite Ha; exact Hlt).
  destruct (cr_GlyphAt_in _ _ Hcg) as [gl Hgl].
  destruct (cr_DbcsAttrAt_in _ _ Hcg) as [d Hd].
  destruct (ar_GetAttrByColumn_in _ _ Hca) as [at0 Hat].
  exists (mkOutputCell gl d at0). split.
  - unfold ROW_at. rewrite Hgl, Hd, Hat. reflexivity.
  - simpl.
    rewrite (size_t_add_small s i) by lia.
    rewrite (size_t_add_small i 1) by lia.
    rewrite Hgl, Hd. simpl.
    rewrite (it_deref_advance _ _ Hca), Hat. simpl.
    rewrite (it_incr_advance _ _ Hca).
    replace (s + i + 1)%N with (s + (i + 1))%N by lia.
    reflexivity.
Qed.

Lemma AsCells_loop_in_range (s : N) (n : nat) :
  forall (i : N) (cells : list OutputCell),
  (s + i + N.of_nat n <= size r)%N ->
  exists new,
    AsCells_loop n r s i
      (it_advance (ar_begin (_attrRow r)) (Z.of_N (s + i))) cells =
    Ok (cells ++ new) /\
    length new = n /\
    forall k cell, nth_error new k = Some cell ->
                   ROW_at r (s + i + N.of_nat k)%N = Ok cell.
Proof.
  induction n as [| n IH]; intros i cells Hle.
  - exists []. simpl. rewrite app_nil_r.
    split; [reflexivity |]. split; [reflexivity |].
    intros k cell Hk. destruct k; discriminate.
  - assert (Hlt : (s + i < size r)%N) by lia.
    destruct (AsCells_loop_step n s i cells Hlt) as [cell [Hat Hstep]].
    destruct (IH (i + 1)%N (cells ++ [cell])) as [new [Hrun [Hlen Hnth]]];
      [lia |].
    exists (cell :: new). rewrite Hstep, Hrun.
    split; [rewrite <- app_assoc; reflexivity |].
    split; [simpl; rewrite Hlen; reflexivity |].
    intros k c Hk. destruct k as [| k].
    + simpl in Hk. injection Hk as <-.
      replace (s + i + N.of_nat 0)%N with (s + i)%N by lia. exact Hat.
    + simpl in Hk.
      replace (s + i + N.of_nat (S k))%N with (s + (i + 1) + N.of_nat k)%N
        by lia.
      apply Hnth. exact Hk.
Qed.

Lemma AsCells_loop_past_end (s : N) (n : nat) :
  forall (i : N) (cells : list OutputCell),
  (s + i <= size r)%N -> (size r < s + i + N.of_nat n)%N ->
  is_Throw (AsCells_loop n r s i
              (it_advance (ar_begin (_attrRow r)) (Z.of_N (s + i))) cells).
Proof.
  induction n as [| n IH]; intros i cells Hle Hgt.
  - lia.
  - destruct (N.eq_dec (s + i) (size r)) as [Heq | Hne].
    + destruct r_widths as [Hg Ha]. unfold size in *.
      pose proof (PTRDIFF_MAX_in_size_t _ r_addressable) as Hsz.
      unfold in_size_t in Hsz.
      assert (Hout : (cr_size (_charRow r) <= s + i)%N) by lia.
      destruct (cr_GlyphAt_out _ _ Hout) as [e He].
      exists e. simpl.
      rewrite (size_t_add_small s i) by lia.
      rewrite He. reflexivity.
    + assert (Hlt : (s + i < size r)%N) by lia.
      destruct (AsCells_loop_step n s i cells Hlt) as [cell [_ Hstep]].
      rewrite Hstep. apply IH; lia.
Qed.

Lemma AsCells2_start (s count : N) :
  (s <= size r)%N ->
  AsCells2 r s count =
  AsCells_loop (N.to_nat count) r s 0%N
    (it_advance (ar_begin (_attrRow r)) (Z.of_N (s + 0))) [].
Proof.
  intros Hs. unfold AsCells2.
  rewrite ptrdiff_of_size_t_small by lia.
  rewrite N.add_0_r. reflexivity.
Qed.

Lemma AsCells2_in_range (s count : N) :
  (s + count <= size r)%N -> yields_columns r s count (AsCells2 r s count).
Proof.
  intros Hle. rewrite AsCells2_start by lia.
  destruct (AsCells_loop_in_range s (N.to_nat count) 0%N [])
    as [new [Hrun [Hlen Hnth]]]; [lia |].
  exists new. split; [exact Hrun |].
  split; [rewrite Hlen; apply N2Nat.id |].
  intros i cell Hi.
  replace (s + N.of_nat i)%N with (s + 0 + N.of_nat i)%N by lia.
  apply Hnth. exact Hi.
Qed.

Lemma AsCells2_past_end (s count : N) :
  (s <= size r)%N -> (size r < s + count)%N -> is_Throw (AsCells2 r s count).
Proof.
  intros Hs Hgt. rewrite AsCells2_start by exact Hs.
  apply AsCells_loop_past_end; lia.
Qed.

Lemma ROW_at_past_end : is_Throw (ROW_at r (size r)).
Proof.
  destruct r_widths as [Hg Ha]. unfold size.
  assert (Hout : (cr_size (_charRow r) <= _rowWidth r)%N) by lia.
  destruct (cr_GlyphAt_out _ _ Hout) as [e He].
  exists e. unfold ROW_at. rewrite He. reflexivity.
Qed.

End Extraction.

(** C4. On a row of width [W] that satisfies the width invariant, [at(W)]
    throws, and [AsCells(startColumn, count)] throws whenever the range
    starts inside the row and ends beyond it, [AsCells(0, W + 1)] included:
    neither returns cells nor reads outside the storages. *)
Theorem accessors_are_bounds_checked {crc : CharRowContract crops}
    {arc : AttrRowContract arops} (r : ROW G A) :
  WidthInvariant r -> (size r <= PTRDIFF_MAX)%N ->
  is_Throw (ROW_at r (size r)) /\
  is_Throw (AsCells2 r 0%N (size r + 1)%N) /\
  (forall startColumn count,
     (startColumn <= size r)%N -> (size r < startColumn + count)%N ->
     is_Throw (AsCells2 r startColumn count)).
Proof.
  intros Hinv Hmax.
  split; [apply ROW_at_past_end; assumption |].
  split.
  - apply AsCells2_past_end; try assumption; lia.
  - intros s count Hs Hgt. apply AsCells2_past_end; assumption.
Qed.

(** C5. On a row that satisfies the width invariant, for
    [startColumn + count <= width] the call [AsCells(startColumn, count)]
    returns exactly [count] cells, and its [i]-th cell is the cell that
    [at(startColumn + i)] returns. *)
Theorem AsCells_agrees_with_at {crc : CharRowContract crops}
    {arc : AttrRowContract arops} (r : ROW G A) (startColumn count : N) :
  WidthInvariant r -> (size r <= PTRDIFF_MAX)%N ->
  (startColumn + count <= size r)%N ->
  exists cells,
    AsCells2 r startColumn count = Ok cells /\
    N.of_nat (length cells) = count /\
    forall i cell, nth_error cells i = Some cell ->
                   ROW_at r (startColumn + N.of_nat i)%N = Ok cell.
Proof.
  intros Hinv Hmax Hle.
  exact (AsCells2_in_range r Hinv Hmax startColumn count Hle).
Qed.

(** On a row that satisfies the width invariant the two short overloads
    return the cells of all columns and of the columns from [startColumn] to
    the end of the row. *)
Lemma AsCells_overloads_yield_columns {crc : CharRowContract crops}
    {arc : AttrRowContract arops} (r : ROW G A) :
  WidthInvariant r -> (size r <= PTRDIFF_MAX)%N ->
  yields_columns r 0%N (size r) (AsCells0 r) /\
  (forall startColumn, (startColumn <= size r)%N ->
     yields_columns r startColumn (size r - startColumn)%N
       (AsCells1 r startColumn)).
Proof.
  intros Hinv Hmax. split.
  - unfold AsCells0. apply AsCells2_in_range; try assumption. lia.
  - intros s Hs. unfold AsCells1.
    rewrite size_t_sub_le;
      [| exact Hs | apply PTRDIFF_MAX_in_size_t; exact Hmax].
    apply AsCells2_in_range; try assumption. lia.
Qed.

(** C8. On a row of recorded width [W] that satisfies the width invariant,
    [AsCells()] returns what [AsCells(0, W)] returns, the cells of all [W]
    columns, and for every [startColumn <= W] the call
    [AsCells(startColumn)] returns what
    [AsCells(startColumn, W - startColumn)] returns, the cells of the
    columns from [startColumn] to the end of the row: [W - startColumn]
    cells, the one at position [i] being the cell of column
    [startColumn + i]. *)
Theorem AsCells_default_overloads {crc : CharRowContract crops}
    {arc : AttrRowContract arops} (r : ROW G A) :
  WidthInvariant r -> (size r <= PTRDIFF_MAX)%N ->
  (AsCells0 r = AsCells2 r 0%N (size r) /\
   yields_columns r 0%N (size r) (AsCells0 r)) /\
  (forall startColumn, (startColumn <= size r)%N ->
     AsCells1 r startColumn =
     AsCells2 r startColumn (size r - startColumn)%N /\
     yields_columns r startColumn (size r - startColumn)%N
       (AsCells1 r startColumn)).
Proof.
  intros Hinv Hmax.
  destruct (AsCells_overloads_yield_columns r Hinv Hmax) as [H0 H1].
  split; [split; [reflexivity | exact H0] |].
  intros s Hs. split; [| exact (H1 s Hs)].
  unfold AsCells1.
  rewrite (size_t_sub_le _ _ Hs (PTRDIFF_MAX_in_size_t _ Hmax)).
  reflexivity.
Qed.

(** C9. [AsCells(startIndex)] passes to the two-argument overload the count
    [(W - startIndex) mod 2^64] and checks nothing itself; for
    [startIndex > W] that count is [2^64 - (startIndex - W)], which is not
    zero and exceeds the width of the row. *)
Theorem AsCells1_count_wraps (r : ROW G A) (startIndex : N) :
  in_size_t startIndex ->
  AsCells1 r startIndex =
  AsCells2 r startIndex
    (Z.to_N ((Z.of_N (size r) - Z.of_N startIndex) mod 2 ^ 64)) /\
  ((size r < startIndex)%N ->
     size_t_sub (size r) startIndex =
     (size_t_modulus - (startIndex - size r))%N /\
     (size r < size_t_sub (size r) startIndex)%N /\
     AsCells1 r startIndex =
     AsCells2 r startIndex (size_t_modulus - (startIndex - size r))%N).
Proof.
  intros Hs. split; [reflexivity |].
  intros Hlt. unfold AsCells1.
  rewrite (size_t_sub_wraps _ _ Hlt Hs).
  unfold in_size_t in *.
  split; [reflexivity |]. split; [lia | reflexivity].
Qed.

End RowTheory.

(* ------------------------------------------------------------------ *)
(** ** Further properties of ROW over any storages *)

Lemma size_t_add_next (s i k : N) :
  size_t_add s (size_t_add i 1 + k) = size_t_add s (i + 1 + k).
Proof.
  unfold size_t_add.
  replace (s + ((i + 1) mod size_t_modulus + k))%N
    with ((i + 1) mod size_t_modulus + (s + k))%N by lia.
  rewrite N.Div0.add_mod_idemp_l. f_equal. lia.
Qed.

Section RowCallsTheory.

Context {G A I : Type} {crops : CharRowOps G} {arops : AttrRowOps A I}
        {wil : ErrorMacros} {U : Type} {tbops : TextBufferOps U}.

(** *** Construction *)

Lemma ROW_new_Ok_inv (rowId rowWidth : SHORT) (fill : TextAttribute)
    (p : TextBufferPtr) (r : ROW G A) :
  ROW_new rowId rowWidth fill p = Ok r ->
  (0 <= rowWidth)%Z /\
  exists g a,
    cr_new (Z.to_N rowWidth) = Ok g /\
    ar_new (Z.to_N rowWidth) fill = Ok a /\
    r = mkROW rowId (Z.to_N rowWidth) g a p.
Proof.
  unfold ROW_new, narrow_size_t, narrow_UINT.
  destruct (Z.ltb_spec rowWidth 0) as [Hneg | Hpos]; simpl; [discriminate |].
  intros H.
  apply bind_Ok_inv in H. destruct H as [g [Hg H]].
  apply bind_Ok_inv in H. destruct H as [a [Ha H]].
  injection H as <-. split; [exact Hpos |].
  exists g, a. auto.
Qed.

(** X1. The constructor throws [narrowing_error] for a negative width; for
    any other width it returns a row exactly when both storage constructors
    succeed for that width, and the row then records the id, the width and
    the parent it was given and owns the two storages just built. *)
Theorem ROW_new_outcome (rowId rowWidth : SHORT) (fill : TextAttribute)
    (p : TextBufferPtr) :
  ((rowWidth < 0)%Z -> ROW_new rowId rowWidth fill p = Throw narrowing_error) /\
  (forall r : ROW G A,
     ROW_new rowId rowWidth fill p = Ok r <->
     (0 <= rowWidth)%Z /\
     exists g a,
       cr_new (Z.to_N rowWidth) = Ok g /\
       ar_new (Z.to_N rowWidth) fill = Ok a /\
       r = mkROW rowId (Z.to_N rowWidth) g a p).
Proof.
  split.
  - intros Hneg. unfold ROW_new, narrow_size_t.
    destruct (Z.ltb_spec rowWidth 0); [reflexivity | lia].
  - intros r. split; [apply ROW_new_Ok_inv |].
    intros [Hpos [g [a [Hg [Ha ->]]]]].
    unfold ROW_new, narrow_size_t, narrow_UINT.
    destruct (Z.ltb_spec rowWidth 0); [lia |]. simpl.
    rewrite Hg. simpl. rewrite Ha. reflexivity.
Qed.

(** *** What each call changes *)

(** X2. [Resize] returns [S_OK] or a failure code, never another success
    code, and it returns [S_OK] exactly when neither sub-resize failed. *)
Theorem Resize_returns_S_OK_or_failure {wilc : ErrorMacrosContract wil}
    (width : N) (r : ROW G A) :
  (fst (Resize width r) = S_OK \/ FAILED (fst (Resize width r)) = true) /\
  (fst (Resize width r) = S_OK <->
   FAILED (fst (cr_Resize width (_charRow r))) = false /\
   fst (ar_Resize width (_attrRow r)) = None).
Proof.
  destruct (FAILED (fst (cr_Resize width (_charRow r)))) eqn:Hg.
  - rewrite (Resize_glyph_failed _ _ Hg). simpl. split; [right; exact Hg |].
    split.
    + intros H. rewrite H in Hg. discriminate.
    + intros [H _]. discriminate.
  - destruct (fst (ar_Resize width (_attrRow r))) as [e |] eqn:Ha.
    + rewrite (Resize_attr_failed _ _ _ Hg Ha). simpl.
      pose proof (caught_exception_failed e) as Hf.
      split; [right; exact Hf |].
      split.
      * intros H. rewrite H in Hf. discriminate.
      * intros [_ H]. discriminate.
    + rewrite (Resize_both_ok _ _ Hg Ha). simpl.
      split; [left; reflexivity |].
      split; auto.
Qed.

(** X3. What one call can change.  No call changes the parent; only
    [SetId] changes the id; only a [Resize] that returns a success code
    changes the recorded width, to its argument; [SetId] and [ClearColumn]
    leave the attribute storage alone, and [SetId] the glyph storage. *)
Theorem member_call_frame {wilc : ErrorMacrosContract wil}
    (m : member_call) (r : ROW G A) :
  _pParent (invoke m r) = _pParent r /\
  GetId (invoke m r) = match m with DoSetId id => id | _ => GetId r end /\
  size (invoke m r) =
    match m with
    | DoResize width =>
        if SUCCEEDED (fst (Resize width r)) then width else size r
    | _ => size r
    end /\
  match m with
  | DoSetId _ =>
      _charRow (invoke m r) = _charRow r /\ _attrRow (invoke m r) = _attrRow r
  | DoClearColumn _ => _attrRow (invoke m r) = _attrRow r
  | _ => True
  end.
Proof.
  destruct m as [id | Attr | width | column]; simpl.
  - repeat split.
  - rewrite Reset_unfold. simpl. repeat split.
  - destruct (FAILED (fst (cr_Resize width (_charRow r)))) eqn:Hg.
    + rewrite (Resize_glyph_failed _ _ Hg). simpl.
      rewrite SUCCEEDED_not_FAILED, Hg. simpl. repeat split.
    + destruct (fst (ar_Resize width (_attrRow r))) as [e |] eqn:Ha.
      * rewrite (Resize_attr_failed _ _ _ Hg Ha). simpl.
        rewrite SUCCEEDED_not_FAILED, caught_exception_failed. simpl.
        repeat split.
      * rewrite (Resize_both_ok _ _ Hg Ha). simpl. repeat split.
  - unfold ClearColumn.
    destruct (cr_size (_charRow r) <=? column)%N; simpl; [repeat split |].
    destruct (cr_ClearCell column (_charRow r)); simpl. repeat split.
Qed.

Lemma invoke_pParent (m : member_call) (r : ROW G A) :
  _pParent (invoke m r) = _pParent r.
Proof.
  destruct m as [id | Attr | width | column]; simpl.
  - reflexivity.
  - rewrite Reset_unfold. reflexivity.
  - unfold Resize. destruct (cr_Resize width (_charRow r)) as [hr g]. simpl.
    destruct (FAILED hr); [reflexivity |].
    destruct (ar_Resize width (_attrRow r)) as [[e |] a]; reflexivity.
  - unfold ClearColumn.
    destruct (cr_size (_charRow r) <=? column)%N; [reflexivity |].
    destruct (cr_ClearCell column (_charRow r)); reflexivity.
Qed.

Lemma invoke_id (m : member_call) (r : ROW G A) :
  _id (invoke m r) = match m with DoSetId id => id | _ => _id r end.
Proof.
  destruct m as [id | Attr | width | column]; simpl.
  - reflexivity.
  - rewrite Reset_unfold. reflexivity.
  - unfold Resize. destruct (cr_Resize width (_charRow r)) as [hr g]. simpl.
    destruct (FAILED hr); [reflexivity |].
    destruct (ar_Resize width (_attrRow r)) as [[e |] a]; reflexivity.
  - unfold ClearColumn.
    destruct (cr_size (_charRow r) <=? column)%N; [reflexivity |].
    destruct (cr_ClearCell column (_charRow r)); reflexivity.
Qed.

Lemma invoke_all_pParent (ms : list member_call) :
  forall r : ROW G A, _pParent (invoke_all ms r) = _pParent r.
Proof.
  induction ms as [| m ms IH]; intros r; simpl; [reflexivity |].
  rewrite IH. apply invoke_pParent.
Qed.

(** X4. After any sequence of calls [GetId] returns the argument of the most
    recent [SetId], or the id the row had when there was none: no other
    member function writes the id. *)
Theorem GetId_is_last_SetId (ms : list member_call) (r : ROW G A) :
  GetId (invoke_all ms r) = last_SetId ms (GetId r).
Proof.
  unfold GetId. revert r.
  induction ms as [| m ms IH]; intros r; simpl; [reflexivity |].
  rewrite IH, invoke_id. destruct m; reflexivity.
Qed.

(** X5. The constructor stores the parent pointer unchecked and no member
    function changes it: after any sequence of calls on a constructed row,
    [GetUnicodeStorage] is undefined when the row was built with a null
    parent and otherwise forwards to the buffer given at construction. *)
Theorem GetUnicodeStorage_after_calls (rowId rowWidth : SHORT)
    (fill : TextAttribute) (p : TextBufferPtr) (r : ROW G A)
    (ms : list member_call) :
  ROW_new rowId rowWidth fill p = Ok r ->
  _pParent (invoke_all ms r) = p /\
  GetUnicodeStorage (invoke_all ms r) =
    if (p =? nullptr)%N then Undefined else Ok (tb_GetUnicodeStorage p).
Proof.
  intros Hnew.
  assert (Hp : _pParent r = p).
  { apply ROW_new_Ok_inv in Hnew.
    destruct Hnew as [_ [g [a [_ [_ ->]]]]]. reflexivity. }
  unfold GetUnicodeStorage. rewrite invoke_all_pParent, Hp.
  split; reflexivity.
Qed.

(** *** ClearColumn outside the width invariant *)

(** X6. The bound [ClearColumn] enforces is the glyph storage's own size.
    After a [Resize] that resized the glyph storage and then failed in the
    attribute storage, the recorded width is still the old one, yet
    [ClearColumn] accepts every column below the requested width and
    rejects the others. *)
Theorem ClearColumn_after_failed_Resize {crc : CharRowContract crops}
    (width : N) (r : ROW G A) (e : exn) (column : N) :
  FAILED (fst (cr_Resize width (_charRow r))) = false ->
  fst (ar_Resize width (_attrRow r)) = Some e ->
  size (snd (Resize width r)) = size r /\
  ((column < width)%N ->
     fst (ClearColumn column (snd (Resize width r))) = None) /\
  ((width <= column)%N ->
     ClearColumn column (snd (Resize width r)) =
     (Some (ResultException E_INVALIDARG), snd (Resize width r))).
Proof.
  intros Hg Ha.
  rewrite (Resize_attr_failed _ _ _ Hg Ha). simpl.
  pose proof (cr_Resize_size width (_charRow r) Hg) as Hsize.
  split; [reflexivity |]. split.
  - intros Hlt. rewrite ClearColumn_in_range; simpl.
    + apply cr_ClearCell_ok. rewrite Hsize. exact Hlt.
    + rewrite Hsize. exact Hlt.
  - intros Hle. apply ClearColumn_out_of_range. simpl.
    rewrite Hsize. exact Hle.
Qed.

(** *** The loop of AsCells, whatever the storages do *)

Lemma AsCells_loop_Ok_inv (r : ROW G A) (s : N) (n : nat) :
  forall (i : N) (it : I) (cells out : list OutputCell),
  AsCells_loop n r s i it cells = Ok out ->
  exists new,
    out = cells ++ new /\
    length new = n /\
    forall k c, nth_error new k = Some c ->
      cr_GlyphAt (_charRow r) (size_t_add s (i + N.of_nat k)) = Ok (oc_glyph c) /\
      cr_DbcsAttrAt (_charRow r) (size_t_add s (i + N.of_nat k)) = Ok (oc_dbcs c) /\
      it_deref (Nat.iter k it_incr it) = Ok (oc_attr c).
Proof.
  induction n as [| n IH]; intros i it cells out H.
  - simpl in H. injection H as <-. exists []. rewrite app_nil_r.
    split; [reflexivity |]. split; [reflexivity |].
    intros k c Hk. destruct k; discriminate.
  - cbn [AsCells_loop] in H.
    apply bind_Ok_inv in H. destruct H as [gl [Hgl H]].
    apply bind_Ok_inv in H. destruct H as [d [Hd H]].
    apply bind_Ok_inv in H. destruct H as [at0 [Hat H]].
    apply IH in H. destruct H as [new [Hout [Hlen Hnth]]].
    exists (mkOutputCell gl d at0 :: new).
    split; [rewrite Hout, <- app_assoc; reflexivity |].
    split; [simpl; rewrite Hlen; reflexivity |].
    intros k c Hk. destruct k as [| k].
    + simpl in Hk. injection Hk as <-. rewrite N.add_0_r. simpl. auto.
    + simpl in Hk. destruct (Hnth k c Hk) as [H1 [H2 H3]].
      rewrite size_t_add_next in H1, H2.
      replace (i + N.of_nat (S k))%N with (i + 1 + N.of_nat k)%N by lia.
      rewrite Nat.iter_succ_r. auto.
Qed.

(** X7. Whenever [AsCells(startIndex, count)] returns, it returns exactly
    [count] cells, whatever the two storages are and whether or not the
    row satisfies the width invariant. *)
Theorem AsCells_returns_count_cells (r : ROW G A) (startIndex count : N)
    (cells : list OutputCell) :
  AsCells2 r startIndex count = Ok cells ->
  N.of_nat (length cells) = count.
Proof.
  unfold AsCells2. intros H.
  apply AsCells_loop_Ok_inv in H. destruct H as [new [-> [Hlen _]]].
  simpl. rewrite Hlen. apply N2Nat.id.
Qed.

(** X8. The pairing rule of [AsCells(startIndex, count)], whatever the
    storages are: the cell at position [k] of the result holds the glyph and
    the width class the glyph storage gives for column [startIndex + k]
    (in [size_t] arithmetic) and the attribute under the iterator that was
    moved to [startIndex] and then incremented [k] times. *)
Theorem AsCells_pairs_column_with_iterator (r : ROW G A)
    (startIndex count : N) (cells : list OutputCell) (k : nat)
    (c : OutputCell) :
  AsCells2 r startIndex count = Ok cells ->
  nth_error cells k = Some c ->
  cr_GlyphAt (_charRow r) (size_t_add startIndex (N.of_nat k)) = Ok (oc_glyph c) /\
  cr_DbcsAttrAt (_charRow r) (size_t_add startIndex (N.of_nat k)) = Ok (oc_dbcs c) /\
  it_deref (AsCells_iterator r startIndex k) = Ok (oc_attr c).
Proof.
  unfold AsCells2, AsCells_iterator. intros H Hk.
  apply AsCells_loop_Ok_inv in H. destruct H as [new [-> [_ Hnth]]].
  simpl in Hk. exact (Hnth k c Hk).
Qed.

(** X9. The empty ranges: for a start up to the recorded width [W],
    [AsCells(startIndex, 0)] returns an empty vector whatever the storages
    hold, and so does [AsCells(W)], where the unsigned subtraction gives
    0: asking for the cells from the end of the row on is no error. *)
Theorem AsCells_empty_range (r : ROW G A) :
  in_size_t (size r) ->
  (forall startIndex, (startIndex <= size r)%N ->
     AsCells2 r startIndex 0%N = Ok []) /\
  AsCells1 r (size r) = Ok [].
Proof.
  intros Hw. split; [reflexivity |].
  unfold AsCells1. rewrite size_t_sub_le by (exact Hw || lia).
  rewrite N.sub_diag. reflexivity.
Qed.

(** *** Cells under the storages' contracts *)

Lemma yields_columns_unique (r : ROW G A) (s count : N)
    (l1 l2 : list OutputCell) :
  yields_columns r s count (Ok l1) -> yields_columns r s count (Ok l2) ->
  l1 = l2.
Proof.
  intros [c1 [E1 [Hlen1 Hnth1]]] [c2 [E2 [Hlen2 Hnth2]]].
  injection E1 as <-. injection E2 as <-.
  apply nth_error_ext. intros n.
  destruct (nth_error l1 n) as [x |] eqn:Hx.
  - destruct (nth_error l2 n) as [y |] eqn:Hy.
    + pose proof (Hnth1 n x Hx) as H1. pose proof (Hnth2 n y Hy) as H2.
      rewrite H1 in H2. injection H2 as <-. reflexivity.
    + apply nth_error_None in Hy.
      assert (n < length l1)%nat by (apply nth_error_Some; congruence).
      lia.
  - apply nth_error_None in Hx. symmetry. apply nth_error_None. lia.
Qed.

(** X10. Extraction composes: on a row that satisfies the width invariant,
    for [s + n + m <= width], [AsCells(s, n + m)] returns the cells of
    [AsCells(s, n)] followed by those of [AsCells(s + n, m)]. *)
Theorem AsCells_of_adjacent_ranges {crc : CharRowContract crops}
    {arc : AttrRowContract arops} (r : ROW G A) (s n m : N) :
  WidthInvariant r -> (size r <= PTRDIFF_MAX)%N ->
  (s + n + m <= size r)%N ->
  exists front back,
    AsCells2 r s n = Ok front /\
    AsCells2 r (s + n)%N m = Ok back /\
    AsCells2 r s (n + m)%N = Ok (front ++ back).
Proof.
  intros Hinv Hmax Hle.
  pose proof (AsCells2_in_range r Hinv Hmax s n) as Hf.
  pose proof (AsCells2_in_range r Hinv Hmax (s + n)%N m) as Hb.
  pose proof (AsCells2_in_range r Hinv Hmax s (n + m)%N) as Hall.
  destruct Hf as [front [Ef [Lf Nf]]]; [lia |].
  destruct Hb as [back [Eb [Lb Nb]]]; [lia |].
  assert (Hall' : yields_columns r s (n + m)%N (AsCells2 r s (n + m)%N))
    by (apply Hall; lia).
  exists front, back. split; [exact Ef |]. split; [exact Eb |].
  destruct Hall' as [all [Eall [Lall Nall]]].
  rewrite Eall. f_equal.
  apply (yields_columns_unique r s (n + m)%N).
  - exists all. auto.
  - exists (front ++ back). split; [reflexivity |].
    split; [rewrite length_app; lia |].
    intros i c Hi.
    destruct (Nat.lt_ge_cases i (length front)) as [Hlt | Hge].
    + rewrite nth_error_app1 in Hi by exact Hlt. apply Nf. exact Hi.
    + rewrite nth_error_app2 in Hi by exact Hge.
      replace (s + N.of_nat i)%N
        with (s + n + N.of_nat (i - length front))%N by lia.
      apply Nb. exact Hi.
Qed.

Lemma AsCells_loop_past_end_exn {crc : CharRowContract crops}
    {arc : AttrRowContract arops} (r : ROW G A) (e : exn) (s : N) (n : nat) :
  WidthInvariant r -> (size r <= PTRDIFF_MAX)%N ->
  cr_GlyphAt (_charRow r) (size r) = Throw e ->
  forall (i : N) (cells : list OutputCell),
  (s + i <= size r)%N -> (size r < s + i + N.of_nat n)%N ->
  AsCells_loop n r s i
    (it_advance (ar_begin (_attrRow r)) (Z.of_N (s + i))) cells = Throw e.
Proof.
  intros Hinv Hmax He.
  induction n as [| n IH]; intros i cells Hle Hgt.
  - lia.
  - destruct (N.eq_dec (s + i) (size r)) as [Heq | Hne].
    + pose proof (PTRDIFF_MAX_in_size_t _ Hmax) as Hsz.
      unfold in_size_t in Hsz.
      cbn [AsCells_loop].
      rewrite (size_t_add_small s i) by lia.
      rewrite Heq, He. reflexivity.
    + assert (Hlt : (s + i < size r)%N) by lia.
      destruct (AsCells_loop_step r Hinv Hmax n s i cells Hlt)
        as [cell [_ Hstep]].
      rewrite Hstep. apply IH; lia.
Qed.

(** X11. On a row of width [W] that satisfies the width invariant, a range
    of at most [W] cells that starts inside the row and ends beyond it
    fails with the very exception the glyph storage throws for column [W],
    and so does [at(W)]: the error is passed on unchanged and no cell is
    returned.  (A count the row itself can hold is one the result vector
    can reserve.) *)
Theorem out_of_range_exception_passed_on
    {crc : CharRowContract crops} {arc : AttrRowContract arops}
    (r : ROW G A) (e : exn) (startColumn count : N) :
  WidthInvariant r -> (size r <= PTRDIFF_MAX)%N ->
  cr_GlyphAt (_charRow r) (size r) = Throw e ->
  (startColumn <= size r)%N -> (count <= size r)%N ->
  (size r < startColumn + count)%N ->
  AsCells2 r startColumn count = Throw e /\ ROW_at r (size r) = Throw e.
Proof.
  intros Hinv Hmax He Hs _ Hgt. split.
  - rewrite (AsCells2_start r Hmax startColumn count Hs).
    apply (AsCells_loop_past_end_exn r e startColumn (N.to_nat count)
             Hinv Hmax He); lia.
  - unfold ROW_at. rewrite He. reflexivity.
Qed.

(** X12. After a [Reset(Attr)] that returns [true] on a row that satisfies
    the width invariant, every column of the row has the blank glyph and the
    attribute [Attr], and [AsCells()] returns one such cell per column. *)
Theorem Reset_makes_the_row_uniform {crc : CharRowContract crops}
    {arc : AttrRowContract arops} (Attr : TextAttribute) (r : ROW G A) :
  WidthInvariant r -> (size r <= PTRDIFF_MAX)%N ->
  fst (Reset Attr r) = true ->
  (forall c, (c < size r)%N ->
     exists d, ROW_at (snd (Reset Attr r)) c =
               Ok (mkOutputCell blank_glyph d Attr)) /\
  yields_columns (snd (Reset Attr r)) 0%N (size r) (AsCells0 (snd (Reset Attr r))).
Proof.
  intros Hinv Hmax Hok.
  pose proof (Reset_WidthInvariant Attr r Hinv) as Hinv'.
  destruct (Reset_widths Attr r) as [_ [_ Hw]].
  assert (Hsize : size (snd (Reset Attr r)) = size r) by exact Hw.
  split.
  - intros c Hc. destruct Hinv as [Hg Ha]. unfold size in Hc.
    rewrite Reset_unfold in Hok |- *. simpl in Hok |- *.
    assert (Hnone : fst (ar_Reset Attr (_attrRow r)) = None)
      by (destruct (fst (ar_Reset Attr (_attrRow r))); [discriminate | reflexivity]).
    assert (Hcg : (c < cr_size (_charRow r))%N) by (rewrite Hg; exact Hc).
    assert (Hcg' : (c < cr_size (cr_Reset (_charRow r)))%N)
      by (rewrite cr_Reset_size; exact Hcg).
    assert (Hca : (c < ar_size (_attrRow r))%N) by (rewrite Ha; exact Hc).
    destruct (cr_DbcsAttrAt_in _ _ Hcg') as [d Hd].
    exists d. unfold ROW_at. simpl.
    rewrite (cr_Reset_blank _ _ Hcg). simpl. rewrite Hd. simpl.
    rewrite (ar_Reset_fill _ _ _ Hnone Hca). reflexivity.
  - assert (Hmax' : (size (snd (Reset Attr r)) <= PTRDIFF_MAX)%N)
      by (rewrite Hsize; exact Hmax).
    pose proof (proj1 (AsCells_overloads_yield_columns
                         (snd (Reset Attr r)) Hinv' Hmax')) as Hcells.
    rewrite Hsize in Hcells. exact Hcells.
Qed.

(** *** The width invariant over all calls *)

Lemma ClearColumn_WidthInvariant {crc : CharRowContract crops}
    (column : N) (r : ROW G A) :
  WidthInvariant r -> WidthInvariant (snd (ClearColumn column r)).
Proof.
  intros [Hg Ha].
  destruct (N.le_gt_cases (cr_size (_charRow r)) column) as [Hout | Hin].
  - rewrite (ClearColumn_out_of_range _ _ Hout). split; assumption.
  - rewrite (ClearColumn_in_range _ _ Hin). unfold WidthInvariant. simpl.
    rewrite (cr_ClearCell_size _ _ Hin). split; assumption.
Qed.

Lemma invoke_all_WidthInvariant {crc : CharRowContract crops}
    {arc : AttrRowContract arops} {wilc : ErrorMacrosContract wil}
    (ms : list member_call) :
  forall (r : ROW G A) (so_far : bool),
  (so_far = true -> WidthInvariant r) ->
  latest_Resize_ok ms r so_far = true ->
  WidthInvariant (invoke_all ms r).
Proof.
  induction ms as [| m ms IH]; intros r so_far Hinv Hlast; simpl in *.
  - apply Hinv. exact Hlast.
  - refine (IH _ _ _ Hlast).
    destruct m as [id | Attr | width | column]; simpl; intros H.
    + exact (Hinv H).
    + apply Reset_WidthInvariant. exact (Hinv H).
    + apply Resize_WidthInvariant. exact H.
    + apply ClearColumn_WidthInvariant. exact (Hinv H).
Qed.

(** X13. The width invariant over every member function that changes the
    row: after a successful construction and any sequence of [SetId],
    [Reset], [Resize] and [ClearColumn] calls, whether they return or
    throw, the three widths are equal whenever the most recent [Resize], if
    there is one, returned a success code. *)
Theorem WidthInvariant_over_all_calls {crc : CharRowContract crops}
    {arc : AttrRowContract arops} {wilc : ErrorMacrosContract wil}
    (rowId rowWidth : SHORT) (fill : TextAttribute) (p : TextBufferPtr)
    (r0 : ROW G A) (ms : list member_call) :
  ROW_new rowId rowWidth fill p = Ok r0 ->
  latest_Resize_ok ms r0 true = true ->
  WidthInvariant (invoke_all ms r0).
Proof.
  intros Hnew Hlast.
  apply (invoke_all_WidthInvariant ms r0 true); [| exact Hlast].
  intros _. apply (ROW_new_WidthInvariant _ _ _ _ _ Hnew).
Qed.

(** X14. A [Resize] that returns a success code repairs any row, also one a
    failed [Resize] left with unequal widths: afterwards the three widths
    are the requested width and [AsCells()] returns exactly that many
    cells, each the one [at] gives for its column. *)
Theorem successful_Resize_repairs_the_row {crc : CharRowContract crops}
    {arc : AttrRowContract arops} {wilc : ErrorMacrosContract wil}
    (width : N) (r : ROW G A) :
  (width <= PTRDIFF_MAX)%N ->
  SUCCEEDED (fst (Resize width r)) = true ->
  size (snd (Resize width r)) = width /\
  WidthInvariant (snd (Resize width r)) /\
  yields_columns (snd (Resize width r)) 0%N width (AsCells0 (snd (Resize width r))).
Proof.
  intros Hmax Hs.
  pose proof (Resize_WidthInvariant width r Hs) as Hinv.
  assert (Hsize : size (snd (Resize width r)) = width).
  { destruct (Resize_succeeded_inv _ _ Hs) as [Hg Ha].
    rewrite (Resize_both_ok _ _ Hg Ha). reflexivity. }
  split; [exact Hsize |]. split; [exact Hinv |].
  assert (Hmax' : (size (snd (Resize width r)) <= PTRDIFF_MAX)%N)
    by (rewrite Hsize; exact Hmax).
  pose proof (proj1 (AsCells_overloads_yield_columns
                       (snd (Resize width r)) Hinv Hmax')) as Hcells.
  rewrite Hsize in Hcells. exact Hcells.
Qed.

(** X15. A row the constructor returns for a [SHORT] width [w] gives
    exactly [w] cells to [AsCells()], an empty vector for [w = 0], and
    [at(w)] throws. *)
Theorem constructed_row_has_rowWidth_cells {crc : CharRowContract crops}
    {arc : AttrRowContract arops}
    (rowId rowWidth : SHORT) (fill : TextAttribute) (p : TextBufferPtr)
    (r : ROW G A) :
  (rowWidth <= 32767)%Z ->
  ROW_new rowId rowWidth fill p = Ok r ->
  size r = Z.to_N rowWidth /\
  yields_columns r 0%N (Z.to_N rowWidth) (AsCells0 r) /\
  is_Throw (ROW_at r (Z.to_N rowWidth)).
Proof.
  intros Hshort Hnew.
  pose proof (ROW_new_WidthInvariant _ _ _ _ _ Hnew) as Hinv.
  assert (Hsize : size r = Z.to_N rowWidth).
  { apply ROW_new_Ok_inv in Hnew.
    destruct Hnew as [_ [g [a [_ [_ ->]]]]]. reflexivity. }
  assert (Hmax : (size r <= PTRDIFF_MAX)%N).
  { rewrite Hsize. unfold PTRDIFF_MAX. lia. }
  split; [exact Hsize |]. rewrite <- Hsize. split.
  - exact (proj1 (AsCells_overloads_yield_columns r Hinv Hmax)).
  - exact (ROW_at_past_end r Hinv Hmax).
Qed.

End RowCallsTheory.

(* ------------------------------------------------------------------ *)
(** ** The concrete storages meet the contracts *)

Import Model.

Lemma set_nth_length {X : Type} (x : X) (l : list X) :
  forall n, length (set_nth n x l) = length l.
Proof.
  induction l as [| y l IH]; intros [| n]; simpl; try reflexivity.
  rewrite IH. reflexivity.
Qed.

Lemma set_nth_same {X : Type} (x : X) (l : list X) :
  forall n, (n < length l)%nat -> nth_error (set_nth n x l) n = Some x.
Proof.
  induction l as [| y l IH]; intros [| n] H; simpl in *; try lia.
  - reflexivity.
  - apply IH. lia.
Qed.

Lemma set_nth_other {X : Type} (x : X) (l : list X) :
  forall n m, n <> m -> nth_error (set_nth n x l) m = nth_error l m.
Proof.
  induction l as [| y l IH]; intros [| n] [| m] H; simpl; try reflexivity.
  - congruence.
  - apply IH. congruence.
Qed.

Lemma nth_error_in_range {X : Type} (l : list X) (c : N) :
  (c < N.of_nat (length l))%N -> exists x, nth_error l (N.to_nat c) = Some x.
Proof.
  intros H. destruct (nth_error l (N.to_nat c)) as [x |] eqn:E.
  - exists x. reflexivity.
  - apply nth_error_None in E. lia.
Qed.

Lemma nth_error_out_of_range {X : Type} (l : list X) (c : N) :
  (N.of_nat (length l) <= c)%N -> nth_error l (N.to_nat c) = None.
Proof.
  intros H. apply nth_error_None. lia.
Qed.

Lemma CharRow_contract (h : heap) : CharRowContract (CharRow_ops h).
Proof.
  constructor; simpl.
  - intros w g. unfold CharRow_new.
    destruct (allocate h) as [[|] h']; [| discriminate].
    intros H. injection H as <-. unfold CharRow_size. simpl.
    rewrite repeat_length. apply N2Nat.id.
  - intros g. unfold CharRow_size, CharRow_Reset. simpl.
    rewrite length_map. reflexivity.
  - intros g c Hc. unfold CharRow_size in Hc.
    unfold CharRow_GlyphAt, CharRow_Reset. simpl.
    rewrite nth_error_map.
    destruct (nth_error_in_range _ _ Hc) as [x ->]. reflexivity.
  - intros w g. unfold CharRow_Resize.
    destruct (N.leb_spec w (CharRow_size g)) as [Hle | Hgt]; simpl.
    + intros _. unfold CharRow_size in *. simpl.
      rewrite length_firstn. lia.
    + destruct (allocate (cr_heap g)) as [[|] h']; simpl.
      * intros _. unfold CharRow_size in *. simpl.
        rewrite length_app, repeat_length. lia.
      * discriminate.
  - intros c g Hc. unfold CharRow_size in Hc. unfold CharRow_ClearCell.
    destruct (nth_error_in_range _ _ Hc) as [x ->]. reflexivity.
  - intros c g Hc. unfold CharRow_size in Hc. unfold CharRow_ClearCell.
    destruct (nth_error_in_range _ _ Hc) as [x ->].
    unfold CharRow_size. simpl. rewrite set_nth_length. reflexivity.
  - intros c g Hc. unfold CharRow_size in Hc.
    unfold CharRow_ClearCell, CharRow_GlyphAt.
    destruct (nth_error_in_range _ _ Hc) as [x ->]. simpl.
    rewrite set_nth_same by lia. reflexivity.
  - intros c g j Hc Hj. unfold CharRow_size in Hc.
    unfold CharRow_ClearCell, CharRow_GlyphAt, CharRow_DbcsAttrAt.
    destruct (nth_error_in_range _ _ Hc) as [x ->]. simpl.
    rewrite set_nth_other by lia. split; reflexivity.
  - intros g c Hc. unfold CharRow_size in Hc. unfold CharRow_GlyphAt.
    destruct (nth_error_in_range _ _ Hc) as [x ->]. eexists. reflexivity.
  - intros g c Hc. unfold CharRow_size in Hc. unfold CharRow_GlyphAt.
    rewrite (nth_error_out_of_range _ _ Hc). eexists. reflexivity.
  - intros g c Hc. unfold CharRow_size in Hc. unfold CharRow_DbcsAttrAt.
    destruct (nth_error_in_range _ _ Hc) as [x ->]. eexists. reflexivity.
Qed.

Lemma CharRow_Resize_contract (h : heap) :
  CharRowResizeContract (CharRow_ops h).
Proof.
  constructor; simpl. intros w g. unfold CharRow_Resize.
  destruct (N.leb_spec w (CharRow_size g)) as [Hle | Hgt]; simpl.
  - discriminate.
  - destruct (allocate (cr_heap g)) as [[|] h']; simpl.
    + discriminate.
    + intros _. reflexivity.
Qed.

(** The runs. *)

Lemma runs_width_one_run (w : N) (attr : TextAttribute) :
  runs_width (one_run w attr) = w.
Proof.
  destruct w; simpl; lia.
Qed.

Lemma runs_attr_one_run (w c : N) (attr : TextAttribute) :
  (c < w)%N -> runs_attr (one_run w attr) c = Some attr.
Proof.
  intros H. destruct w as [| p]; [lia |]. simpl.
  destruct (N.ltb_spec c (N.pos p)); [reflexivity | lia].
Qed.

Lemma runs_attr_in_range (l : list TextAttributeRun) :
  forall c, (c < runs_width l)%N -> exists attr, runs_attr l c = Some attr.
Proof.
  induction l as [| r l IH]; intros c H; cbn [runs_width runs_attr] in *;
    [lia |].
  destruct (N.ltb_spec c (N.pos (run_length r))).
  - eexists. reflexivity.
  - apply IH. lia.
Qed.

Lemma runs_attr_out_of_range (l : list TextAttributeRun) :
  forall c, (runs_width l <= c)%N -> runs_attr l c = None.
Proof.
  induction l as [| r l IH]; intros c H; cbn [runs_width runs_attr] in *;
    [reflexivity |].
  destruct (N.ltb_spec c (N.pos (run_length r))); [lia |].
  apply IH. lia.
Qed.

Lemma runs_width_take_columns (l : list TextAttributeRun) :
  forall w, (w <= runs_width l)%N -> runs_width (take_columns w l) = w.
Proof.
  induction l as [| r l IH]; intros w H;
    cbn [runs_width take_columns] in *; [lia |].
  destruct w as [| p]; [reflexivity |].
  destruct (Pos.ltb_spec (run_length r) p) as [Hlt | Hge];
    cbn [runs_width run_length].
  - rewrite IH by lia. lia.
  - lia.
Qed.

Lemma runs_width_extend_last (d : positive) (l : list TextAttributeRun) :
  runs_width (extend_last d l) = (runs_width l + N.pos d)%N.
Proof.
  induction l as [| r l IH]; [reflexivity |].
  destruct l as [| r' l'].
  - cbn [extend_last runs_width run_length]. lia.
  - change (extend_last d (r :: r' :: l')) with (r :: extend_last d (r' :: l')).
    change (runs_width (r :: extend_last d (r' :: l')))
      with (N.pos (run_length r) + runs_width (extend_last d (r' :: l')))%N.
    rewrite IH. cbn [runs_width]. lia.
Qed.

(** The iterator, [k] increments after standing at position [off] of the
    first of the runs [l], yields the attribute [k] columns further on. *)
Lemma iterator_walk (k : nat) :
  forall (l : list TextAttributeRun) (off : N),
  match l with
  | [] => off = 0%N
  | r :: _ => (off < N.pos (run_length r))%N
  end ->
  (off + N.of_nat k < runs_width l)%N ->
  exists attr,
    runs_attr l (off + N.of_nat k)%N = Some attr /\
    iterator_deref (Nat.iter k iterator_incr (mkIterator l off)) = Ok attr.
Proof.
  induction k as [| k IH]; intros l off Hcanon Hlt.
  - destruct l as [| r l];
      cbn [runs_width runs_attr Nat.iter nat_rect iterator_deref it_runs
           N.of_nat] in *;
      [lia |].
    exists (run_attr r). rewrite N.add_0_r.
    destruct (N.ltb_spec off (N.pos (run_length r))); [| lia].
    split; reflexivity.
  - rewrite Nat.iter_succ_r.
    destruct l as [| r l]; [cbn [runs_width] in Hlt; lia |].
    change (iterator_incr (mkIterator (r :: l) off))
      with (if (off + 1 <? N.pos (run_length r))%N
            then mkIterator (r :: l) (off + 1)%N
            else mkIterator l 0%N).
    destruct (N.ltb_spec (off + 1) (N.pos (run_length r))) as [Hin | Hout].
    + destruct (IH (r :: l) (off + 1)%N) as [attr [Hattr Hd]];
        [exact Hin | lia |].
      exists attr. split; [| exact Hd].
      replace (off + N.of_nat (S k))%N with (off + 1 + N.of_nat k)%N by lia.
      exact Hattr.
    + cbn [runs_width] in Hlt.
      destruct (IH l 0%N) as [attr [Hattr Hd]].
      * destruct l; [reflexivity | lia].
      * lia.
      * exists attr. split; [| exact Hd].
        cbn [runs_attr].
        destruct (N.ltb_spec (off + N.of_nat (S k)) (N.pos (run_length r)));
          [lia |].
        replace (off + N.of_nat (S k) - N.pos (run_length r))%N
          with (0 + N.of_nat k)%N by lia.
        exact Hattr.
Qed.

Lemma ATTR_ROW_contract (h : heap) :
  AttrRowContract (ATTR_ROW_ops h).
Proof.
  constructor; simpl.
  - intros w attr a. unfold ATTR_ROW_new.
    destruct (allocate h) as [[|] h']; [| discriminate].
    intros H. injection H as <-. unfold ATTR_ROW_size. simpl.
    apply runs_width_one_run.
  - intros attr a. unfold ATTR_ROW_Reset, ATTR_ROW_size.
    destruct (allocate (ar_heap a)) as [[|] h']; simpl;
      [apply runs_width_one_run | reflexivity].
  - intros attr a c. unfold ATTR_ROW_Reset, ATTR_ROW_GetAttrByColumn.
    destruct (allocate (ar_heap a)) as [[|] h']; simpl; [| discriminate].
    intros _ Hc. rewrite runs_attr_one_run by exact Hc. reflexivity.
  - intros attr a e c. unfold ATTR_ROW_Reset, ATTR_ROW_GetAttrByColumn.
    destruct (allocate (ar_heap a)) as [[|] h']; simpl; [discriminate |].
    intros _. reflexivity.
  - intros w a. unfold ATTR_ROW_Resize, ATTR_ROW_size.
    destruct (w - runs_width (_list a))%N as [| d] eqn:E; simpl.
    + intros _. apply runs_width_take_columns. lia.
    + destruct (allocate (ar_heap a)) as [[|] h']; simpl; [| discriminate].
      intros _. rewrite runs_width_extend_last. lia.
  - intros a c Hc. unfold ATTR_ROW_GetAttrByColumn.
    destruct (runs_attr_in_range _ _ Hc) as [attr ->]. eexists. reflexivity.
  - intros a c Hc. unfold ATTR_ROW_GetAttrByColumn.
    rewrite (runs_attr_out_of_range _ _ Hc). eexists. reflexivity.
  - intros a c Hc. unfold iterator_advance, ATTR_ROW_begin.
    destruct (Z.ltb_spec (Z.of_N c) 0); [lia |].
    destruct (iterator_walk (Z.to_nat (Z.of_N c)) (_list a) 0%N)
      as [attr [Hattr Hd]].
    + destruct (_list a); [reflexivity | lia].
    + unfold ATTR_ROW_size in Hc. lia.
    + rewrite Hd. unfold ATTR_ROW_GetAttrByColumn.
      replace (0 + N.of_nat (Z.to_nat (Z.of_N c)))%N with c in Hattr by lia.
      rewrite Hattr. reflexivity.
  - intros a c Hc. unfold iterator_advance.
    destruct (Z.ltb_spec (Z.of_N c) 0); [lia |].
    destruct (Z.ltb_spec (Z.of_N (c + 1)) 0); [lia |].
    replace (Z.to_nat (Z.of_N (c + 1))) with (S (Z.to_nat (Z.of_N c))) by lia.
    reflexivity.
Qed.

Lemma wil_macros_contract : ErrorMacrosContract wil_macros.
Proof.
  constructor. intros e. destruct e as [hr | | |]; simpl; try reflexivity.
  destruct (FAILED hr) eqn:E; [exact E | reflexivity].
Qed.

(* ------------------------------------------------------------------ *)
(** ** The row over the concrete storages *)

Import Demo.

Section ShortOfMemory.

#[local] Existing Instance glyphs.
#[local] Existing Instance attrs_short_of_memory.
#[local] Existing Instance wil_macros.

(** C1, as stated, fails.  [ROW(0, 5, 7, 0)] succeeds; [Resize(10)] grows
    the glyph storage, fails in the attribute storage and reports failure;
    the [Reset(7)] that follows reports success, and the glyph storage is 10
    columns wide while the attribute storage and the recorded width are 5. *)
Lemma WidthInvariant_lost_after_failed_Resize :
  ROW_new 0%Z 5%Z 7%N 0%N = Ok row5_short_of_memory /\
  fst (step (CallResize 10%N) row5_short_of_memory) = false /\
  fst (step (CallReset 7%N) (run [CallResize 10%N] row5_short_of_memory)) = true /\
  cr_size (_charRow (run [CallResize 10%N; CallReset 7%N] row5_short_of_memory)) = 10%N /\
  ar_size (_attrRow (run [CallResize 10%N; CallReset 7%N] row5_short_of_memory)) = 5%N /\
  size (run [CallResize 10%N; CallReset 7%N] row5_short_of_memory) = 5%N /\
  ~ WidthInvariant (run [CallResize 10%N; CallReset 7%N] row5_short_of_memory).
Proof.
  repeat split; try reflexivity.
  intros [H _]. vm_compute in H. discriminate H.
Qed.

End ShortOfMemory.

Section GlyphsShortOfMemory.

#[local] Existing Instance glyphs_short_of_memory.
#[local] Existing Instance attrs.
#[local] Existing Instance wil_macros.

(** The amended C1 on [ROW(0, 5, 7, 0)] over a glyph storage that cannot
    grow: [Resize(10)] fails in its glyph step and reports failure, the
    [Reset(7)] that follows reports success, and the three widths are still
    equal. *)
Lemma WidthInvariant_unless_attribute_step_failed_example :
  ROW_new 0%Z 5%Z 7%N 0%N = Ok row5_glyphs_short_of_memory /\
  fst (step (CallResize 10%N) row5_glyphs_short_of_memory) = false /\
  fst (step (CallReset 7%N)
         (run [CallResize 10%N] row5_glyphs_short_of_memory)) = true /\
  no_attribute_step_failure [CallResize 10%N; CallReset 7%N]
    row5_glyphs_short_of_memory true = true /\
  WidthInvariant
    (run [CallResize 10%N; CallReset 7%N] row5_glyphs_short_of_memory).
Proof.
  assert (Hnew : ROW_new 0%Z 5%Z 7%N 0%N = Ok row5_glyphs_short_of_memory)
    by reflexivity.
  assert (Hflag : no_attribute_step_failure [CallResize 10%N; CallReset 7%N]
                    row5_glyphs_short_of_memory true = true) by reflexivity.
  split; [exact Hnew |]. split; [reflexivity |]. split; [reflexivity |].
  split; [exact Hflag |].
  exact (WidthInvariant_unless_attribute_step_failed
           (crc := CharRow_contract [true; false])
           (crr := CharRow_Resize_contract [true; false])
           (arc := ATTR_ROW_contract [])
           0%Z 5%Z 7%N 0%N row5_glyphs_short_of_memory
           [CallResize 10%N; CallReset 7%N] Hnew Hflag).
Defined.

End GlyphsShortOfMemory.

Section Examples.

#[local] Existing Instance glyphs.
#[local] Existing Instance attrs.
#[local] Existing Instance wil_macros.

Lemma row6_WidthInvariant : WidthInvariant row6.
Proof.
  split; reflexivity.
Qed.

Lemma row6_addressable : (size row6 <= PTRDIFF_MAX)%N.
Proof.
  vm_compute. discriminate.
Qed.

(** The amended C1 on [ROW(0, 5, 7, 0)] followed by [Resize(10)], [Reset(3)]
    and [Resize(2)], all of which succeed. *)
Example WidthInvariant_while_every_call_succeeds :
  ROW_new 0%Z 5%Z 7%N 0%N = Ok row5 /\
  no_attribute_step_failure
    [CallResize 10%N; CallReset 3%N; CallResize 2%N] row5 true = true /\
  cr_size (_charRow (run [CallResize 10%N; CallReset 3%N; CallResize 2%N] row5))
  = 2%N /\
  ar_size (_attrRow (run [CallResize 10%N; CallReset 3%N; CallResize 2%N] row5))
  = 2%N /\
  size (run [CallResize 10%N; CallReset 3%N; CallResize 2%N] row5) = 2%N.
Proof. repeat split. Qed.

(** C2 on a six-column row whose attribute storage cannot grow: [Resize(9)]
    grows the glyph storage, returns a failure and keeps the width 6. *)
Lemma Resize_failure_policy_example :
  cr_size (_charRow (snd (Resize 9%N row6_attr_fails))) = 9%N /\
  FAILED (fst (Resize 9%N row6_attr_fails)) = true /\
  size (snd (Resize 9%N row6_attr_fails)) = 6%N.
Proof.
  destruct (Resize_failure_policy (wilc := wil_macros_contract)
              9%N row6_attr_fails) as [Hg [_ [Hattr _]]].
  destruct (Hattr eq_refl bad_alloc eq_refl) as [_ [Hfailed Hsize]].
  split; [rewrite Hg; reflexivity |].
  split; [exact Hfailed | exact Hsize].
Defined.

(** C3 on a six-column row whose attribute reset fails: [Reset(5)] returns
    [false], column 4 keeps its attribute and column 1 has a blank glyph. *)
Lemma Reset_partial_success_example :
  fst (Reset 5%N row6_attr_fails) = false /\
  ar_GetAttrByColumn (_attrRow (snd (Reset 5%N row6_attr_fails))) 4%N =
  ar_GetAttrByColumn (_attrRow row6_attr_fails) 4%N /\
  cr_GlyphAt (_charRow (snd (Reset 5%N row6_attr_fails))) 1%N = Ok blank_glyph.
Proof.
  destruct (Reset_partial_success
              (crc := CharRow_contract []) (arc := ATTR_ROW_contract [])
              5%N row6_attr_fails) as [_ [Hblank [Hfail _]]].
  destruct (Hfail bad_alloc eq_refl) as [Hfalse Hstale].
  split; [exact Hfalse |]. split; [exact (Hstale 4%N) |].
  apply Hblank. reflexivity.
Defined.

(** C4 on the six-column row: [at(6)] and [AsCells(0, 7)] throw. *)
Lemma accessors_are_bounds_checked_example :
  WidthInvariant row6 /\
  is_Throw (ROW_at row6 6%N) /\ is_Throw (AsCells2 row6 0%N 7%N).
Proof.
  destruct (accessors_are_bounds_checked
              (crc := CharRow_contract []) (arc := ATTR_ROW_contract [])
              row6 row6_WidthInvariant row6_addressable) as [Hat [Hcells _]].
  split; [exact row6_WidthInvariant |]. split; [exact Hat | exact Hcells].
Defined.

(** C5 on the six-column row: [AsCells(1, 4)] against [at(1)] .. [at(4)]. *)
Lemma AsCells_agrees_with_at_example :
  (1 + 4 <= size row6)%N /\
  exists cells,
    AsCells2 row6 1%N 4%N = Ok cells /\
    N.of_nat (length cells) = 4%N /\
    forall i cell, nth_error cells i = Some cell ->
                   ROW_at row6 (1 + N.of_nat i)%N = Ok cell.
Proof.
  assert (Hle : (1 + 4 <= size row6)%N) by (vm_compute; discriminate).
  split; [exact Hle |].
  exact (AsCells_agrees_with_at
           (crc := CharRow_contract []) (arc := ATTR_ROW_contract [])
           row6 1%N 4%N row6_WidthInvariant row6_addressable Hle).
Defined.

(** C6 on the six-column row: [ClearColumn(2)]. *)
Lemma ClearColumn_isolation_example :
  (2 < size row6)%N /\
  fst (ClearColumn 2%N row6) = None /\
  size (snd (ClearColumn 2%N row6)) = size row6 /\
  forall j, j <> 2%N -> ROW_at (snd (ClearColumn 2%N row6)) j = ROW_at row6 j.
Proof.
  assert (Hlt : (2 < size row6)%N) by reflexivity.
  destruct (ClearColumn_isolation
              (crc := CharRow_contract []) (arc := ATTR_ROW_contract [])
              row6 2%N row6_WidthInvariant Hlt) as [Hok [Hsize [_ [_ Hother]]]].
  split; [exact Hlt |]. split; [exact Hok |].
  split; [exact Hsize | exact Hother].
Defined.

(** C7 on the six-column row: [ClearColumn(6)] throws and changes nothing. *)
Lemma ClearColumn_bounds_check_example :
  cr_size (_charRow row6) = size row6 /\
  ClearColumn 6%N row6 = (Some (ResultException E_INVALIDARG), row6).
Proof.
  assert (Hw : cr_size (_charRow row6) = size row6) by reflexivity.
  destruct (ClearColumn_bounds_check (crc := CharRow_contract [])
              row6 6%N Hw) as [Hout _].
  split; [exact Hw |]. apply Hout. vm_compute. discriminate.
Defined.

(** C8 on the six-column row: [AsCells()] and [AsCells(2)]. *)
Lemma AsCells_default_overloads_example :
  WidthInvariant row6 /\
  yields_columns row6 0%N (size row6) (AsCells0 row6) /\
  AsCells1 row6 2%N = AsCells2 row6 2%N (size row6 - 2)%N /\
  yields_columns row6 2%N (size row6 - 2)%N (AsCells1 row6 2%N).
Proof.
  destruct (AsCells_default_overloads
              (crc := CharRow_contract []) (arc := ATTR_ROW_contract [])
              row6 row6_WidthInvariant row6_addressable) as [[_ H0] H1].
  assert (Hle : (2 <= size row6)%N) by (vm_compute; discriminate).
  destruct (H1 2%N Hle) as [Heq Hcells].
  split; [exact row6_WidthInvariant |]. split; [exact H0 |].
  split; [exact Heq | exact Hcells].
Defined.

(** C9 on the six-column row: [AsCells(7)] asks for [2^64 - 1] cells. *)
Lemma AsCells1_count_wraps_example :
  in_size_t 7%N /\
  size_t_sub (size row6) 7%N = (size_t_modulus - (7 - size row6))%N /\
  (size row6 < size_t_sub (size row6) 7%N)%N.
Proof.
  assert (Hs : in_size_t 7%N) by reflexivity.
  destruct (AsCells1_count_wraps row6 7%N Hs) as [_ Hwrap].
  assert (Hlt : (size row6 < 7)%N) by reflexivity.
  destruct (Hwrap Hlt) as [Hcount [Hbig _]].
  split; [exact Hs |]. split; [exact Hcount | exact Hbig].
Defined.

End Examples.

(* ------------------------------------------------------------------ *)
(** ** The functions evaluated on the six-column row *)

Section Evaluation.

#[local] Existing Instance glyphs.
#[local] Existing Instance attrs.
#[local] Existing Instance wil_macros.

Example ROW_at_row6_3 : ROW_at row6 3%N = Ok (mkOutputCell [100%N] Single 2%N).
Proof. reflexivity. Qed.

Example AsCells2_row6_1_4 :
  AsCells2 row6 1%N 4%N =
  Ok [mkOutputCell [98%N] Single 1%N; mkOutputCell [99%N] Single 1%N;
      mkOutputCell [100%N] Single 2%N; mkOutputCell [101%N] Single 2%N].
Proof. reflexivity. Qed.

Example AsCells1_row6_4 :
  AsCells1 row6 4%N =
  Ok [mkOutputCell [101%N] Single 2%N; mkOutputCell [102%N] Single 2%N].
Proof. vm_compute. reflexivity. Qed.

Example AsCells2_row6_0_7 :
  AsCells2 row6 0%N 7%N = Throw (ResultException E_INVALIDARG).
Proof. reflexivity. Qed.

Example ClearColumn_row6_2 :
  ROW_at (snd (ClearColumn 2%N row6)) 2%N = Ok (mkOutputCell [32%N] Single 1%N).
Proof. reflexivity. Qed.

Example Resize_row6_4 :
  fst (Resize 4%N row6) = S_OK /\
  AsCells0 (snd (Resize 4%N row6)) =
  Ok [mkOutputCell [97%N] Single 1%N; mkOutputCell [98%N] Single 1%N;
      mkOutputCell [99%N] Single 1%N; mkOutputCell [100%N] Single 2%N].
Proof. split; reflexivity. Qed.

Example Resize_row6_glyph_fails :
  Resize 9%N row6_glyph_fails =
  (E_OUTOFMEMORY,
   mkROW 3%Z 6%N (mkCharRow abcdef [])
         (mkATTR_ROW [mkRun 3 1%N; mkRun 3 2%N] []) 0%N).
Proof. reflexivity. Qed.

Example Reset_row6 :
  fst (Reset 9%N row6) = true /\
  AsCells2 (snd (Reset 9%N row6)) 4%N 2%N =
  Ok [mkOutputCell [32%N] Single 9%N; mkOutputCell [32%N] Single 9%N].
Proof. split; reflexivity. Qed.

Example ROW_new_negative_width :
  ROW_new 0%Z (-1)%Z 7%N 0%N = Throw narrowing_error.
Proof. reflexivity. Qed.

End Evaluation.

(* ------------------------------------------------------------------ *)
(** ** The further properties on concrete rows *)

Section MoreExamples.

#[local] Existing Instance glyphs.
#[local] Existing Instance attrs.
#[local] Existing Instance wil_macros.
#[local] Existing Instance buffers.

(** X2 on the six-column row whose glyph storage cannot grow. *)
Lemma Resize_returns_S_OK_or_failure_example :
  fst (Resize 9%N row6_glyph_fails) = S_OK \/
  FAILED (fst (Resize 9%N row6_glyph_fails)) = true.
Proof.
  exact (proj1 (Resize_returns_S_OK_or_failure (wilc := wil_macros_contract)
                  9%N row6_glyph_fails)).
Defined.

(** X3 on a [Resize(9)] whose attribute step fails. *)
Lemma member_call_frame_example :
  _pParent (invoke (DoResize 9%N) row6_attr_fails) = _pParent row6_attr_fails /\
  size (invoke (DoResize 9%N) row6_attr_fails) =
    (if SUCCEEDED (fst (Resize 9%N row6_attr_fails)) then 9%N
     else size row6_attr_fails).
Proof.
  destruct (member_call_frame (wilc := wil_macros_contract)
              (DoResize 9%N) row6_attr_fails) as [Hp [_ [Hw _]]].
  split; [exact Hp | exact Hw].
Defined.

(** X5 on [ROW(2, 5, 7, 4096)] followed by three calls. *)
Lemma GetUnicodeStorage_after_calls_example :
  ROW_new 2%Z 5%Z 7%N 4096%N = Ok row5_owned /\
  GetUnicodeStorage
    (invoke_all [DoSetId 4%Z; DoResize 3%N; DoClearColumn 8%N] row5_owned) =
  (if (4096 =? nullptr)%N then Undefined else Ok (tb_GetUnicodeStorage 4096%N)).
Proof.
  assert (Hnew : ROW_new 2%Z 5%Z 7%N 4096%N = Ok row5_owned) by reflexivity.
  split; [exact Hnew |].
  exact (proj2 (GetUnicodeStorage_after_calls 2%Z 5%Z 7%N 4096%N row5_owned
                  [DoSetId 4%Z; DoResize 3%N; DoClearColumn 8%N] Hnew)).
Defined.

(** X6 on the six-column row after a [Resize(9)] whose attribute step
    fails: the width is still 6 and [ClearColumn(7)] is accepted. *)
Lemma ClearColumn_after_failed_Resize_example :
  size (snd (Resize 9%N row6_attr_fails)) = size row6_attr_fails /\
  fst (ClearColumn 7%N (snd (Resize 9%N row6_attr_fails))) = None.
Proof.
  assert (Hg : FAILED (fst (cr_Resize 9%N (_charRow row6_attr_fails))) = false)
    by reflexivity.
  assert (Ha : fst (ar_Resize 9%N (_attrRow row6_attr_fails)) = Some bad_alloc)
    by reflexivity.
  destruct (ClearColumn_after_failed_Resize (crc := CharRow_contract [])
              9%N row6_attr_fails bad_alloc 7%N Hg Ha)
    as [Hsize [Hin _]].
  split; [exact Hsize |]. apply Hin. reflexivity.
Defined.

(** X7 on the six-column row. *)
Lemma AsCells_returns_count_cells_example :
  AsCells2 row6 1%N 4%N =
  Ok [mkOutputCell [98%N] Single 1%N; mkOutputCell [99%N] Single 1%N;
      mkOutputCell [100%N] Single 2%N; mkOutputCell [101%N] Single 2%N] /\
  N.of_nat
    (length [mkOutputCell [98%N] Single 1%N; mkOutputCell [99%N] Single 1%N;
             mkOutputCell [100%N] Single 2%N; mkOutputCell [101%N] Single 2%N]) =
  4%N.
Proof.
  assert (H : AsCells2 row6 1%N 4%N =
              Ok [mkOutputCell [98%N] Single 1%N; mkOutputCell [99%N] Single 1%N;
                  mkOutputCell [100%N] Single 2%N;
                  mkOutputCell [101%N] Single 2%N]) by reflexivity.
  split; [exact H |].
  exact (AsCells_returns_count_cells row6 1%N 4%N _ H).
Defined.

(** X8 on the six-column row: the cell at position 2 of [AsCells(1, 4)]. *)
Lemma AsCells_pairs_column_with_iterator_example :
  cr_GlyphAt (_charRow row6) (size_t_add 1 (N.of_nat 2)) = Ok [100%N] /\
  it_deref (AsCells_iterator row6 1%N 2) = Ok 2%N.
Proof.
  assert (H : AsCells2 row6 1%N 4%N =
              Ok [mkOutputCell [98%N] Single 1%N; mkOutputCell [99%N] Single 1%N;
                  mkOutputCell [100%N] Single 2%N;
                  mkOutputCell [101%N] Single 2%N]) by reflexivity.
  destruct (AsCells_pairs_column_with_iterator row6 1%N 4%N _ 2
              (mkOutputCell [100%N] Single 2%N) H eq_refl) as [Hg [_ Ha]].
  split; [exact Hg | exact Ha].
Defined.

(** X9 on the six-column row. *)
Lemma AsCells_empty_range_example :
  in_size_t (size row6) /\ AsCells1 row6 (size row6) = Ok [].
Proof.
  assert (Hw : in_size_t (size row6)) by reflexivity.
  split; [exact Hw |].
  exact (proj2 (AsCells_empty_range row6 Hw)).
Defined.

(** X10 on the six-column row: [AsCells(1, 5)] from [AsCells(1, 2)] and
    [AsCells(3, 3)]. *)
Lemma AsCells_of_adjacent_ranges_example :
  exists front back,
    AsCells2 row6 1%N 2%N = Ok front /\
    AsCells2 row6 (1 + 2)%N 3%N = Ok back /\
    AsCells2 row6 1%N (2 + 3)%N = Ok (front ++ back).
Proof.
  assert (Hle : (1 + 2 + 3 <= size row6)%N) by (vm_compute; discriminate).
  exact (AsCells_of_adjacent_ranges
           (crc := CharRow_contract []) (arc := ATTR_ROW_contract [])
           row6 1%N 2%N 3%N row6_WidthInvariant row6_addressable Hle).
Defined.

(** X11 on the six-column row: [AsCells(2, 5)] and [at(6)]. *)
Lemma out_of_range_exception_passed_on_example :
  cr_GlyphAt (_charRow row6) (size row6) = Throw (ResultException E_INVALIDARG) /\
  AsCells2 row6 2%N 5%N = Throw (ResultException E_INVALIDARG) /\
  ROW_at row6 (size row6) = Throw (ResultException E_INVALIDARG).
Proof.
  assert (He : cr_GlyphAt (_charRow row6) (size row6) =
               Throw (ResultException E_INVALIDARG)) by reflexivity.
  assert (Hs : (2 <= size row6)%N) by (vm_compute; discriminate).
  assert (Hc : (5 <= size row6)%N) by (vm_compute; discriminate).
  assert (Hgt : (size row6 < 2 + 5)%N) by reflexivity.
  split; [exact He |].
  exact (out_of_range_exception_passed_on
           (crc := CharRow_contract []) (arc := ATTR_ROW_contract [])
           row6 (ResultException E_INVALIDARG) 2%N 5%N
           row6_WidthInvariant row6_addressable He Hs Hc Hgt).
Defined.

(** X12 on the six-column row: [Reset(9)]. *)
Lemma Reset_makes_the_row_uniform_example :
  fst (Reset 9%N row6) = true /\
  yields_columns (snd (Reset 9%N row6)) 0%N (size row6)
    (AsCells0 (snd (Reset 9%N row6))).
Proof.
  assert (Hok : fst (Reset 9%N row6) = true) by reflexivity.
  split; [exact Hok |].
  exact (proj2 (Reset_makes_the_row_uniform
                  (crc := CharRow_contract []) (arc := ATTR_ROW_contract [])
                  9%N row6 row6_WidthInvariant row6_addressable Hok)).
Defined.

(** X13 on [ROW(0, 5, 7, 0)] followed by calls of all four kinds. *)
Lemma WidthInvariant_over_all_calls_example :
  ROW_new 0%Z 5%Z 7%N 0%N = Ok row5 /\
  WidthInvariant
    (invoke_all [DoResize 10%N; DoClearColumn 12%N; DoSetId 9%Z; DoReset 3%N;
                 DoClearColumn 2%N] row5).
Proof.
  assert (Hnew : ROW_new 0%Z 5%Z 7%N 0%N = Ok row5) by reflexivity.
  split; [exact Hnew |].
  exact (WidthInvariant_over_all_calls
           (crc := CharRow_contract []) (arc := ATTR_ROW_contract [])
           (wilc := wil_macros_contract) 0%Z 5%Z 7%N 0%N row5
           [DoResize 10%N; DoClearColumn 12%N; DoSetId 9%Z; DoReset 3%N;
            DoClearColumn 2%N] Hnew eq_refl).
Defined.

(** X14 on the five-column row a failed [Resize(10)] left with widths 10,
    5 and 5: [Resize(8)] succeeds and repairs it. *)
Lemma successful_Resize_repairs_the_row_example :
  ~ WidthInvariant (snd (Resize 10%N row5_short_of_memory)) /\
  SUCCEEDED (fst (Resize 8%N (snd (Resize 10%N row5_short_of_memory)))) = true /\
  WidthInvariant (snd (Resize 8%N (snd (Resize 10%N row5_short_of_memory)))).
Proof.
  assert (Hs : SUCCEEDED
                 (fst (Resize 8%N (snd (Resize 10%N row5_short_of_memory))))
               = true) by reflexivity.
  assert (Hmax : (8 <= PTRDIFF_MAX)%N) by (vm_compute; discriminate).
  split; [intros [H _]; vm_compute in H; discriminate H |].
  split; [exact Hs |].
  exact (proj1 (proj2 (successful_Resize_repairs_the_row
                         (crc := CharRow_contract [])
                         (arc := ATTR_ROW_contract [])
                         (wilc := wil_macros_contract)
                         8%N (snd (Resize 10%N row5_short_of_memory))
                         Hmax Hs))).
Defined.

(** X15 on [ROW(0, 5, 7, 0)]. *)
Lemma constructed_row_has_rowWidth_cells_example :
  ROW_new 0%Z 5%Z 7%N 0%N = Ok row5 /\
  yields_columns row5 0%N (Z.to_N 5) (AsCells0 row5) /\
  is_Throw (ROW_at row5 (Z.to_N 5)).
Proof.
  assert (Hnew : ROW_new 0%Z 5%Z 7%N 0%N = Ok row5) by reflexivity.
  assert (Hshort : (5 <= 32767)%Z) by lia.
  split; [exact Hnew |].
  exact (proj2 (constructed_row_has_rowWidth_cells
                  (crc := CharRow_contract []) (arc := ATTR_ROW_contract [])
                  0%Z 5%Z 7%N 0%N row5 Hshort Hnew)).
Defined.

(** The calls on the unequal widths a failed [Resize] leaves behind. *)
Example ClearColumn_4_after_failed_Resize_9 :
  ROW_at (snd (ClearColumn 4%N (snd (Resize 9%N row6_attr_fails)))) 4%N =
  Ok (mkOutputCell [32%N] Single 2%N).
Proof. reflexivity. Qed.

Example GetUnicodeStorage_null_parent :
  GetUnicodeStorage (invoke_all [DoSetId 1%Z] row5) = Undefined.
Proof. reflexivity. Qed.

End MoreExamples.
